(** * Intuition finance core: a shallow embedding of [intuition/finance.py]

    The numeric transforms of the module (moving averages, the relative
    strength oscillator, MACD, periodic and averaged returns, the QSTK Sharpe
    ratio) are written once over a numeric carrier and read at two carriers:

    - [float], the IEEE 754 binary64 numbers numpy computes with, where an
      input can be run and the special values are the real ones;
    - [R], exact arithmetic, where the algebraic identities are stated. A
      quotient by zero in [R] is not the program's (IEEE gives an infinity
      or a NaN), so a statement over [R] keeps its denominators away from
      zero by hypothesis.

    Python exceptions are a value of [result]; numpy arrays are lists, and
    a sum over one adds in numpy's order (pairwise, [np_sum]), which shows
    on [float] and not on [R]; a pandas Series is an index of integer labels
    with one optional value per label, the missing value ([NaN] in pandas)
    being [None], and [ts[k]] looks [k] up among the labels. *)

From Stdlib Require Import String.
From Stdlib Require Import ZArith List Bool Lia.
From Stdlib Require Import Reals Lra.
From Stdlib Require Import Floats.
Import ListNotations.

(** ** Exceptions *)

Inductive exn : Set :=
| ValueError
| IndexError
| KeyError
| TypeError
| ZeroDivisionError.

Inductive result (T : Type) : Type :=
| Ok (v : T)
| Raise (e : exn).

Arguments Ok {T} v.
Arguments Raise {T} e.

Definition bind {T U : Type} (c : result T) (k : T -> result U) : result U :=
  match c with
  | Ok v => k v
  | Raise e => Raise e
  end.

Notation "x <- c ;; k" := (bind c (fun x => k))
  (at level 61, c at next level, right associativity).

(** ** The numeric carrier *)

Class Numeric (A : Type) : Type := {
  ofZ : Z -> A;
  add : A -> A -> A;
  sub : A -> A -> A;
  mul : A -> A -> A;
  div : A -> A -> A;
  opp : A -> A;
  leb : A -> A -> bool;
  ltb : A -> A -> bool;
  sqrt : A -> A;
  isnan : A -> bool
}.

(** [np.exp] is the C library's exponential; a carrier that has one says so. *)
Class Exponential (A : Type) : Type := exp : A -> A.

Declare Scope num_scope.
Delimit Scope num_scope with num.
Infix "+^" := add (at level 50, left associativity) : num_scope.
Infix "-^" := sub (at level 50, left associativity) : num_scope.
Infix "*^" := mul (at level 40, left associativity) : num_scope.
Infix "/^" := div (at level 40, left associativity) : num_scope.

(** *** Exact arithmetic *)

#[export] Instance R_Numeric : Numeric R := {|
  ofZ := IZR;
  add := Rplus;
  sub := Rminus;
  mul := Rmult;
  div := Rdiv;
  opp := Ropp;
  leb := fun x y => if Rle_dec x y then true else false;
  ltb := fun x y => if Rlt_dec x y then true else false;
  sqrt := R_sqrt.sqrt;
  isnan := fun _ => false
|}.

#[export] Instance R_Exponential : Exponential R := Rtrigo_def.exp.

(** *** IEEE 754 binary64 *)

(** A Python [int] converted to a float, exact below 2^53 in magnitude. *)
Definition float_of_Z (z : Z) : float :=
  match z with
  | Z0 => PrimFloat.zero
  | Zpos _ => PrimFloat.of_uint63 (Uint63.of_Z z)
  | Zneg p => PrimFloat.opp (PrimFloat.of_uint63 (Uint63.of_Z (Zpos p)))
  end.

#[export] Instance float_Numeric : Numeric float := {|
  ofZ := float_of_Z;
  add := PrimFloat.add;
  sub := PrimFloat.sub;
  mul := PrimFloat.mul;
  div := PrimFloat.div;
  opp := PrimFloat.opp;
  leb := PrimFloat.leb;
  ltb := PrimFloat.ltb;
  sqrt := PrimFloat.sqrt;
  isnan := PrimFloat.is_nan
|}.

(** ** Python indexing and slicing *)

(** The position a Python index denotes in a sequence of length [n]:
    negative indices count from the end, anything else is out of range. *)
Definition py_index (n : nat) (i : Z) : option nat :=
  if (0 <=? i)%Z && (i <? Z.of_nat n)%Z then Some (Z.to_nat i)
  else if (i <? 0)%Z && (- Z.of_nat n <=? i)%Z then Some (Z.to_nat (Z.of_nat n + i))
  else None.

(** The normalised stop of the slice [l[:k]]. *)
Definition slice_stop (n : nat) (k : Z) : nat :=
  if (k <? 0)%Z then Z.to_nat (Z.max 0 (Z.of_nat n + k))
  else Nat.min (Z.to_nat k) n.

(** [range(a, b)] *)
Definition py_range (a b : Z) : list Z :=
  map (fun k => (a + Z.of_nat k)%Z) (seq 0 (Z.to_nat (b - a))).

Section Sequences.
Context {T : Type}.

(** [l[i]] *)
Definition getitem (l : list T) (i : Z) : result T :=
  match py_index (length l) i with
  | Some k =>
      match nth_error l k with
      | Some x => Ok x
      | None => Raise IndexError
      end
  | None => Raise IndexError
  end.

(** [l[i] = v] *)
Definition setitem (l : list T) (i : Z) (v : T) : result (list T) :=
  match py_index (length l) i with
  | Some k => Ok (firstn k l ++ v :: skipn (S k) l)
  | None => Raise IndexError
  end.

(** [l[:k]] *)
Definition take (l : list T) (k : Z) : list T :=
  firstn (slice_stop (length l) k) l.

(** [l[:k] = v] with a scalar [v] broadcast over the slice *)
Definition setslice (l : list T) (k : Z) (v : T) : list T :=
  let stop := slice_stop (length l) k in
  repeat v stop ++ skipn stop l.

(** Elementwise combination of two arrays of one shape. *)
Fixpoint map2 {U V : Type} (f : T -> U -> V) (l : list T) (m : list U) : list V :=
  match l, m with
  | x :: l', y :: m' => f x y :: map2 f l' m'
  | _, _ => []
  end.
End Sequences.

(** ** numpy *)

Section Numpy.
Context {A : Type} `{Numeric A}.
Local Open Scope num_scope.

Definition zero : A := ofZ 0.
Definition one : A := ofZ 1.

(** [x == y] on numbers, false as soon as one side is NaN. *)
Definition eqb (x y : A) : bool := leb x y && leb y x.

(** The plain loop [res += a[i]], from [init] on. *)
Definition accumulate (l : list A) (init : A) : A := fold_left add l init.

(** Eight running sums, the next [k] blocks of eight added to them place by
    place; what is left of the array comes back with the sums. *)
Fixpoint accumulate8 (k : nat) (r l : list A) : list A * list A :=
  match k with
  | O => (r, l)
  | S k' => accumulate8 k' (map2 add r (firstn 8 l)) (skipn 8 l)
  end.

(** [((r0 + r1) + (r2 + r3)) + ((r4 + r5) + (r6 + r7))] *)
Definition tree8 (r : list A) : A :=
  match r with
  | [r0; r1; r2; r3; r4; r5; r6; r7] =>
      ((r0 +^ r1) +^ (r2 +^ r3)) +^ ((r4 +^ r5) +^ (r6 +^ r7))
  | _ => zero
  end.

(** A block of 8 to 128 elements: eight running sums over the full blocks
    of eight, added up as a tree, then the rest one by one. *)
Definition block_sum (l : list A) : A :=
  let n := length l in
  let '(r, rest) := accumulate8 (n / 8 - 1) (firstn 8 l) (skipn 8 l) in
  accumulate rest (tree8 r).

(** numpy's pairwise summation: fewer than 8 elements are added in order,
    up to 128 as a block, and a longer array is cut in two at a multiple of
    eight, each part summed in turn. [fuel] bounds the depth of the cuts;
    the length of the array is always enough ([pairwise_sum_fuel]). *)
Fixpoint pairwise_sum (fuel : nat) (l : list A) : A :=
  let n := length l in
  if (n <? 8)%nat then accumulate l zero
  else if (n <=? 128)%nat then block_sum l
  else
    match fuel with
    | O => block_sum l
    | S fuel' =>
        let n2 := (n / 2 - (n / 2) mod 8)%nat in
        pairwise_sum fuel' (firstn n2 l) +^ pairwise_sum fuel' (skipn n2 l)
    end.

(** [a.sum()]: [np.add.reduce] starts from the identity of the addition and
    adds to it the pairwise sum of the array. *)
Definition np_sum (l : list A) : A :=
  zero +^ pairwise_sum (length l) l.

(** [np.mean(a)] *)
Definition np_mean (l : list A) : A :=
  np_sum l /^ ofZ (Z.of_nat (length l)).

(** [np.std(a)]: the population standard deviation. *)
Definition np_std (l : list A) : A :=
  let m := np_mean l in
  sqrt (np_mean (map (fun x => (x -^ m) *^ (x -^ m)) l)).

(** [np.diff(a)] *)
Fixpoint np_diff (l : list A) : list A :=
  match l with
  | x :: (y :: _) as l' => (y -^ x) :: np_diff l'
  | _ => []
  end.

(** [np.ones(n)] *)
Definition np_ones (n : Z) : result (list A) :=
  if (n <? 0)%Z then Raise ValueError else Ok (repeat one (Z.to_nat n)).

(** [np.linspace(start, stop, num)] with the end point included. *)
Definition np_linspace (start stop : A) (num : Z) : result (list A) :=
  if (num <? 0)%Z then Raise ValueError
  else
    let d := (num - 1)%Z in
    let y := map (fun k => ofZ (Z.of_nat k)) (seq 0 (Z.to_nat num)) in
    let delta := stop -^ start in
    let y :=
      if (0 <? d)%Z then
        let step := delta /^ ofZ d in
        if eqb step zero
        then map (fun v => v /^ ofZ d *^ delta) y
        else map (fun v => v *^ step) y
      else map (fun v => v *^ delta) y in
    let y := map (fun v => v +^ start) y in
    Ok (if (1 <? num)%Z then removelast y ++ [stop] else y).

(** One sample of the discrete convolution, [(a * v)[n] = sum_m a[m] v[n-m]],
    the sum ranging over the [m] for which both factors exist: a dot
    product, its terms accumulated in the order of [m]. *)
Definition conv_at (a v : list A) (n : nat) : A :=
  let lo := n - (length v - 1) in
  let hi := Nat.min n (length a - 1) in
  accumulate (map (fun m => nth m a zero *^ nth (n - m) v zero)
                  (seq lo (S hi - lo))) zero.

(** [np.convolve(a, v, mode='full')] *)
Definition np_convolve (a v : list A) : result (list A) :=
  match a, v with
  | [], _ => Raise ValueError
  | _, [] => Raise ValueError
  | _, _ => Ok (map (conv_at a v) (seq 0 (length a + length v - 1)))
  end.
End Numpy.

(** ** pandas *)

(** A Series: the labels of the time axis and one value per label, [None]
    where the value is missing. *)
Record Series (A : Type) : Type := mkSeries {
  s_index : list Z;
  s_values : list (option A)
}.

Arguments mkSeries {A} s_index s_values.
Arguments s_index {A} s.
Arguments s_values {A} s.

Section Pandas.
Context {A : Type} `{Numeric A}.
Local Open Scope num_scope.

(** pandas keeps a missing value as a NaN, so a NaN that arithmetic produces
    is a missing value too. *)
Definition norm (v : A) : option A :=
  if isnan v then None else Some v.

Definition lift2 (f : A -> A -> A) (x y : option A) : option A :=
  match x, y with
  | Some a, Some b => norm (f a b)
  | _, _ => None
  end.

(** The Series of a plain sequence of numbers, labelled [0 .. n-1]. *)
Definition series_of (l : list A) : Series A :=
  mkSeries (py_range 0 (Z.of_nat (length l))) (map norm l).

(** [ts[label]]: on an index of integers an integer key is a label, looked
    up among the labels and not counted from the start; a label the index
    does not hold raises [KeyError]. *)
Fixpoint loc_at (index : list Z) (values : list (option A)) (label : Z)
  : result (option A) :=
  match index, values with
  | i :: index', v :: values' =>
      if (i =? label)%Z then Ok v else loc_at index' values' label
  | _, _ => Raise KeyError
  end.

Definition loc (ts : Series A) (label : Z) : result (option A) :=
  loc_at (s_index ts) (s_values ts) label.

(** [ts.shift(k)]: the values move [k] places towards the end (towards the
    start for a negative [k]), the places left free are missing. *)
Definition shift_values (l : list (option A)) (k : Z) : list (option A) :=
  let n := length l in
  if (0 <=? k)%Z then
    let j := Nat.min (Z.to_nat k) n in
    repeat None j ++ firstn (n - j) l
  else
    let j := Nat.min (Z.to_nat (- k)) n in
    skipn j l ++ repeat None j.

Definition shift (ts : Series A) (k : Z) : Series A :=
  mkSeries (s_index ts) (shift_values (s_values ts) k).

(** [ts1 / ts2] for two Series over one index *)
Definition s_div (ts1 ts2 : Series A) : Series A :=
  mkSeries (s_index ts1) (map2 (lift2 div) (s_values ts1) (s_values ts2)).

(** [ts - c] and [ts + c] for a scalar [c] *)
Definition s_sub_scalar (ts : Series A) (c : A) : Series A :=
  mkSeries (s_index ts) (map (fun x => lift2 sub x (Some c)) (s_values ts)).

Definition s_add_scalar (ts : Series A) (c : A) : Series A :=
  mkSeries (s_index ts) (map (fun x => lift2 add x (Some c)) (s_values ts)).

(** [ts.cumprod()]: the running product of the values present; a missing
    value stays missing and leaves the product as it is. *)
Fixpoint cumprod_from (acc : A) (l : list (option A)) : list (option A) :=
  match l with
  | [] => []
  | None :: l' => None :: cumprod_from acc l'
  | Some v :: l' => norm (acc *^ v) :: cumprod_from (acc *^ v) l'
  end.

Definition cumprod (ts : Series A) : Series A :=
  mkSeries (s_index ts) (cumprod_from one (s_values ts)).

(** [ts[1:]] *)
Definition s_tail (ts : Series A) : Series A :=
  mkSeries (tl (s_index ts)) (tl (s_values ts)).
End Pandas.

(** ** finance.py *)

(** The keyword arguments [average_returns] reads; [None] is an absent key. *)
Record average_kwargs : Type := mkAverageKw {
  avg_type : option string;
  avg_period : option Z
}.

(** The keyword arguments [returns] reads. [start] and [end] are time labels. *)
Record returns_kwargs : Type := mkReturnsKw {
  kw_type : option string;
  kw_cumulative : option bool;
  kw_start : option Z;
  kw_end : option Z;
  kw_period : option Z
}.

(** What [returns] hands back: one number in point-to-point mode, a Series
    in periodic mode. *)
Inductive returns_out (A : Type) : Type :=
| Scalar (x : option A)
| Frame (ts : Series A).

Arguments Scalar {A} x.
Arguments Frame {A} ts.

(** [kwargs.get(key, default)] *)
Definition kwargs_get {T : Type} (entry : option T) (default : T) : T :=
  match entry with
  | Some v => v
  | None => default
  end.

(** [idx % period] on Python integers, the period possibly absent. *)
Definition py_mod (a : Z) (b : option Z) : result Z :=
  match b with
  | None => Raise TypeError
  | Some 0%Z => Raise ZeroDivisionError
  | Some b => Ok (a mod b)%Z
  end.

Section Finance.
Context {A : Type} `{Numeric A}.
Local Open Scope num_scope.

(** [qstk_get_sharpe_ratio(rets, risk_free)] *)
Definition qstk_get_sharpe_ratio (rets : list A) (risk_free : A) : A :=
  let f_dev := np_std rets in
  let f_mean := np_mean rets in
  (f_mean *^ ofZ 252 -^ risk_free) /^ (f_dev *^ sqrt (ofZ 252)).

(** The kernel of [moving_average] before it is normalised. *)
Definition ma_kernel `{Exponential A} (periods : Z) (type : string)
  : result (list A) :=
  if String.eqb type "simple" then np_ones periods
  else l <- np_linspace (ofZ (-1)) (ofZ 0) periods ;; Ok (map exp l).

(** [weights /= weights.sum()] *)
Definition normalise (weights : list A) : list A :=
  map (fun w => w /^ np_sum weights) weights.

(** [moving_average(data, periods, type)] *)
Definition moving_average `{Exponential A}
  (data : list A) (periods : Z) (type : string) : result (list A) :=
  weights <- ma_kernel periods type ;;
  let weights := normalise weights in
  full <- np_convolve data weights ;;
  let mavg := firstn (length data) full in
  v <- getitem mavg periods ;;
  Ok (setslice mavg periods v).

(** The seed state [(up, down)] of [relative_strength]. *)
Definition rs_seed (deltas : list A) (periods : Z) : A * A :=
  let seed := take deltas (periods + 1) in
  let up := np_sum (filter (fun x => leb zero x) seed) /^ ofZ periods in
  let down := opp (np_sum (filter (fun x => ltb x zero) seed)) /^ ofZ periods in
  (up, down).

(** [100. - 100. / (1. + up / down)] *)
Definition rs_value (st : A * A) : A :=
  let ratio := fst st /^ snd st in
  ofZ 100 -^ ofZ 100 /^ (one +^ ratio).

(** One turn of the smoothing loop on the state. *)
Definition rs_update (periods : Z) (st : A * A) (delta : A) : A * A :=
  let upval := if ltb zero delta then delta else zero in
  let downval := if ltb zero delta then zero else opp delta in
  ((fst st *^ ofZ (periods - 1) +^ upval) /^ ofZ periods,
   (snd st *^ ofZ (periods - 1) +^ downval) /^ ofZ periods).

(** The loop [for i in range(periods, len(prices))] *)
Fixpoint rs_loop (deltas : list A) (periods : Z) (idxs : list Z)
  (st : A * A) (rsi : list A) : result (list A) :=
  match idxs with
  | [] => Ok rsi
  | i :: idxs' =>
      delta <- getitem deltas (i - 1) ;;
      let st' := rs_update periods st delta in
      rsi' <- setitem rsi i (rs_value st') ;;
      rs_loop deltas periods idxs' st' rsi'
  end.

(** [relative_strength(prices, periods)] *)
Definition relative_strength (prices : list A) (periods : Z) : result (list A) :=
  let deltas := np_diff prices in
  let st := rs_seed deltas periods in
  let rsi := repeat zero (length prices) in
  let rsi := setslice rsi periods (rs_value st) in
  rs_loop deltas periods (py_range periods (Z.of_nat (length prices))) st rsi.

(** [moving_average_convergence(data, nslow, nfast)] *)
Definition moving_average_convergence `{Exponential A}
  (data : list A) (nslow nfast : Z) : result (list A * list A * list A) :=
  emaslow <- moving_average data nslow "exponential" ;;
  emafast <- moving_average data nfast "exponential" ;;
  Ok (emaslow, emafast, map2 sub emafast emaslow).

(** The loop of [average_returns] over [range(len(ts.index))]; [ts[idx]]
    looks the integer [idx] up among the labels of the index. *)
Fixpoint average_loop (ts : Series A) (relative : Z)
  (period : option Z) (idxs : list Z) (avg_ret : option A)
  : result (option A) :=
  match idxs with
  | [] => Ok avg_ret
  | idx :: idxs' =>
      m <- py_mod idx period ;;
      if (m =? 0)%Z then
        x <- loc ts idx ;;
        let factor := lift2 add (lift2 add (Some one) x) (Some (ofZ relative)) in
        average_loop ts relative period idxs' (lift2 mul avg_ret factor)
      else average_loop ts relative period idxs' avg_ret
  end.

(** [average_returns(ts, **kwargs)] *)
Definition average_returns (ts : Series A) (kwargs : average_kwargs)
  : result (option A) :=
  let average_type := kwargs_get (avg_type kwargs) "net"%string in
  let relative := if String.eqb average_type "net" then 0%Z else (-1)%Z in
  let period := avg_period kwargs in
  avg_ret <- average_loop ts relative period
               (py_range 0 (Z.of_nat (length (s_index ts)))) (Some one) ;;
  Ok (lift2 sub avg_ret (Some one)).

(** [returns(ts, **kwargs)]; [now] is the clock read for the default [end]. *)
Definition returns (now : Z) (ts : Series A) (kwargs : returns_kwargs)
  : result (returns_out A) :=
  let returns_type := kwargs_get (kw_type kwargs) "net"%string in
  let cumulative := kwargs_get (kw_cumulative kwargs) false in
  let relative := if String.eqb returns_type "net" then 0%Z else 1%Z in
  let start := kw_start kwargs in
  let end_ := kwargs_get (kw_end kwargs) now in
  let period := kwargs_get (kw_period kwargs) 1%Z in
  match start with
  | Some start =>
      e <- loc ts end_ ;;
      s <- loc ts start ;;
      Ok (Scalar (lift2 add (lift2 sub (lift2 div e s) (Some one))
                        (Some (ofZ relative))))
  | None =>
      let rets_df :=
        s_add_scalar (s_sub_scalar (s_div ts (shift ts period)) one)
                     (ofZ relative) in
      Ok (Frame (if cumulative then cumprod rets_df else s_tail rets_df))
  end.
End Finance.

(** ** The quantities the specification speaks of *)

Section SpecificationTerms.
Context {A : Type} `{Numeric A}.
Local Open Scope num_scope.

(** The return at place [i] over a stride of [period] places: missing while
    there is no earlier observation to compare with, and
    [series[i] / series[i - period] - 1 + relative] from there on. *)
Definition periodic_return (values : list (option A)) (period : nat)
  (relative : Z) (i : nat) : option A :=
  if i <? period then None
  else lift2 add
         (lift2 sub (lift2 div (nth i values None) (nth (i - period) values None))
                    (Some one))
         (Some (ofZ relative)).

(** The values present in a list, in order. *)
Fixpoint present (l : list (option A)) : list A :=
  match l with
  | [] => []
  | None :: l' => present l'
  | Some v :: l' => v :: present l'
  end.

(** The running product at place [i]: the product of the values present up
    to and including [i], missing where the value itself is. *)
Definition running_product (l : list (option A)) (i : nat) : option A :=
  match nth i l None with
  | None => None
  | Some _ => norm (fold_left mul (present (firstn (S i) l)) one)
  end.




(** The seed as the specification words it: over the first [periods]
    differences. *)
Definition rs_seed_spec (deltas : list A) (periods : Z) : A * A :=
  let seed := take deltas periods in
  let up := np_sum (filter (fun x => leb zero x) seed) /^ ofZ periods in
  let down := opp (np_sum (filter (fun x => ltb x zero) seed)) /^ ofZ periods in
  (up, down).

(** The values of a sequence at the places that are multiples of the stride,
    [k] being the place of the head. *)
Fixpoint stride_from {T : Type} (k : Z) (l : list T) (period : Z) : list T :=
  match l with
  | [] => []
  | x :: l' =>
      if (k mod period =? 0)%Z then x :: stride_from (k + 1) l' period
      else stride_from (k + 1) l' period
  end.

Definition stride_values {T : Type} (l : list T) (period : Z) : list T :=
  stride_from 0 l period.
End SpecificationTerms.


(** ** finance.py, the compounding formulas and [daily_returns] *)

(** [pow] with an integer exponent and [math.log] are the C library's; a
    carrier that has them says so. Where the C library overflows Python
    raises [OverflowError], which exact arithmetic never does. *)
Class Powers (A : Type) : Type := {
  fpow : A -> Z -> A;
  flog : A -> A
}.

#[export] Instance R_Powers : Powers R := {|
  fpow := powerRZ;
  flog := ln
|}.

Section Formulas.
Context {A : Type} `{Numeric A} `{Powers A}.
Local Open Scope num_scope.

(** [pow(x, n)] for an integer [n]: zero has no negative power. *)
Definition py_pow (x : A) (n : Z) : result A :=
  if (n <? 0)%Z && eqb x zero then Raise ZeroDivisionError
  else Ok (fpow x n).

(** [math.log(x)]: a domain error at zero and below. *)
Definition py_log (x : A) : result A :=
  if leb x zero then Raise ValueError else Ok (flog x).

(** [annualized_returns(ret_per_period, periods_per_year)] *)
Definition annualized_returns (ret_per_period : A) (periods_per_year : Z)
  : result A :=
  p <- py_pow (one +^ ret_per_period) periods_per_year ;;
  Ok (p -^ one).

(** [cc_annualize_returns(ret_per_period, periods_per_year)] *)
Definition cc_annualize_returns (ret_per_period : A) (periods_per_year : Z)
  : result A :=
  a <- annualized_returns ret_per_period periods_per_year ;;
  py_log (one +^ a).
End Formulas.

Section Callers.
Context {A : Type} `{Numeric A}.

(** [daily_returns(ts, **kwargs)]. The keywords it hands to [returns],
    [delta] and [relative], are none of those [returns] reads. *)
Definition daily_returns (now : Z) (ts : Series A) (relative : option A)
  : result (returns_out A) :=
  let relative := kwargs_get relative zero in
  returns now ts (mkReturnsKw None None None None None).

(** The return at place [i] against the observation [k] places later. *)
Definition forward_return (values : list (option A)) (k : nat)
  (relative : Z) (i : nat) : option A :=
  lift2 add
    (lift2 sub (lift2 div (nth i values None) (nth (i + k) values None))
               (Some one))
    (Some (ofZ relative)).
End Callers.

(** The net returns of a price list from one place to the next. *)
Definition step_returns (P : list R) : list R :=
  map (fun i => (nth (S i) P 0 / nth i P 0 - 1 + 0)%R) (seq 0 (length P - 1)).

(** Net returns compounded: the product of the growth factors [1 + r]. *)
Definition compound (l : list R) : R :=
  fold_right (fun r acc => ((1 + r) * acc)%R) 1%R l.

(** * Facts about the embedding *)

(** ** Indexing and slicing *)

Section SequenceFacts.
Context {T : Type}.

Lemma py_index_nonneg (n : nat) (i : Z) :
  (0 <= i < Z.of_nat n)%Z -> py_index n i = Some (Z.to_nat i).
Proof.
  intros Hi. unfold py_index.
  destruct (Z.leb_spec 0 i); [|lia].
  destruct (Z.ltb_spec i (Z.of_nat n)); [reflexivity|lia].
Qed.

Lemma py_index_beyond (n : nat) (i : Z) :
  (Z.of_nat n <= i)%Z -> py_index n i = None.
Proof.
  intros Hi. unfold py_index.
  destruct (Z.leb_spec 0 i); [|lia].
  destruct (Z.ltb_spec i (Z.of_nat n)); [lia|].
  destruct (Z.ltb_spec i 0); [lia|reflexivity].
Qed.

Lemma py_index_bound (n : nat) (i : Z) (k : nat) :
  py_index n i = Some k -> k < n.
Proof.
  unfold py_index.
  destruct (Z.leb_spec 0 i); destruct (Z.ltb_spec i (Z.of_nat n)); simpl;
    destruct (Z.ltb_spec i 0); destruct (Z.leb_spec (- Z.of_nat n) i); simpl;
    intros E; inversion E; lia.
Qed.

Lemma slice_stop_nonneg (n : nat) (k : Z) :
  (0 <= k <= Z.of_nat n)%Z -> slice_stop n k = Z.to_nat k.
Proof.
  intros Hk. unfold slice_stop.
  destruct (Z.ltb_spec k 0); lia.
Qed.

Lemma slice_stop_le (n : nat) (k : Z) : slice_stop n k <= n.
Proof.
  unfold slice_stop. destruct (Z.ltb_spec k 0); lia.
Qed.

Lemma getitem_nonneg (l : list T) (i : Z) :
  (0 <= i < Z.of_nat (length l))%Z ->
  exists v, getitem l i = Ok v /\ nth_error l (Z.to_nat i) = Some v.
Proof.
  intros Hi. unfold getitem. rewrite py_index_nonneg by exact Hi.
  destruct (nth_error l (Z.to_nat i)) as [v|] eqn:E.
  - exists v. split; reflexivity.
  - apply nth_error_None in E. lia.
Qed.

Lemma getitem_beyond (l : list T) (i : Z) :
  (Z.of_nat (length l) <= i)%Z -> getitem l i = Raise IndexError.
Proof.
  intros Hi. unfold getitem. rewrite py_index_beyond by exact Hi. reflexivity.
Qed.

Lemma length_setslice (l : list T) (k : Z) (v : T) :
  length (setslice l k v) = length l.
Proof.
  unfold setslice. rewrite length_app, repeat_length, length_skipn.
  pose proof (slice_stop_le (length l) k). lia.
Qed.

Lemma nth_error_setslice (l : list T) (k : Z) (v : T) (i : nat) :
  nth_error (setslice l k v) i =
  if i <? slice_stop (length l) k then Some v else nth_error l i.
Proof.
  unfold setslice. rewrite nth_error_app, repeat_length.
  destruct (Nat.ltb_spec i (slice_stop (length l) k)) as [Hlt|Hge].
  - apply nth_error_repeat. exact Hlt.
  - rewrite nth_error_skipn. f_equal. lia.
Qed.

Lemma length_setitem (l l' : list T) (i : Z) (v : T) :
  setitem l i v = Ok l' -> length l' = length l.
Proof.
  unfold setitem. destruct (py_index (length l) i) as [k|] eqn:E; [|discriminate].
  intros E'. apply py_index_bound in E.
  assert (L : length l' = length (firstn k l ++ v :: skipn (S k) l))
    by (injection E' as <-; reflexivity).
  rewrite L, length_app, length_firstn, length_cons, length_skipn. lia.
Qed.

Lemma In_setitem (l l' : list T) (i : Z) (v x : T) :
  setitem l i v = Ok l' -> In x l' -> x = v \/ In x l.
Proof.
  unfold setitem. destruct (py_index (length l) i) as [k|]; [|discriminate].
  intros E Hx.
  assert (Hx' : In x (firstn k l ++ v :: skipn (S k) l))
    by (injection E as <-; exact Hx).
  clear E Hx. apply in_app_or in Hx'. rename Hx' into Hx.
  destruct Hx as [Hx|[Hx|Hx]].
  - right. rewrite <- (firstn_skipn k l). apply in_or_app. left. exact Hx.
  - left. symmetry. exact Hx.
  - right. rewrite <- (firstn_skipn (S k) l). apply in_or_app. right. exact Hx.
Qed.

Lemma setitem_nonneg (l : list T) (i : Z) (v : T) :
  (0 <= i < Z.of_nat (length l))%Z -> exists l', setitem l i v = Ok l'.
Proof.
  intros Hi. unfold setitem. rewrite py_index_nonneg by exact Hi.
  eexists. reflexivity.
Qed.

Lemma length_map2 {U V : Type} (f : T -> U -> V) (l : list T) (m : list U) :
  length (map2 f l m) = Nat.min (length l) (length m).
Proof.
  revert m. induction l as [|x l IH]; intros [|y m]; simpl; auto.
Qed.

Lemma nth_error_map2 {U V : Type} (f : T -> U -> V) (l : list T) (m : list U)
  (i : nat) (x : T) (y : U) :
  nth_error l i = Some x -> nth_error m i = Some y ->
  nth_error (map2 f l m) i = Some (f x y).
Proof.
  revert m i. induction l as [|a l IH]; intros [|b m] [|i]; simpl;
    try discriminate.
  - intros E1 E2. inversion E1. inversion E2. reflexivity.
  - apply IH.
Qed.
End SequenceFacts.

Lemma length_py_range (a b : Z) : length (py_range a b) = Z.to_nat (b - a).
Proof. unfold py_range. rewrite length_map, length_seq. reflexivity. Qed.

Lemma In_py_range (a b i : Z) : In i (py_range a b) <-> (a <= i < b)%Z.
Proof.
  unfold py_range. rewrite in_map_iff. split.
  - intros [k [E Hk]]. apply in_seq in Hk. lia.
  - intros Hi. exists (Z.to_nat (i - a)). split; [lia|]. apply in_seq. lia.
Qed.

Lemma firstn_seq (n start len : nat) :
  firstn n (seq start len) = seq start (Nat.min n len).
Proof.
  revert start len. induction n as [|n IH]; intros start [|len]; simpl;
    try reflexivity.
  f_equal. apply IH.
Qed.

(** ** The moving average *)

Section MovingAverageFacts.
Context {A : Type} `{Numeric A} `{Exponential A}.

Lemma length_np_linspace (start stop : A) (num : Z) (l : list A) :
  np_linspace start stop num = Ok l -> length l = Z.to_nat num.
Proof.
  unfold np_linspace. destruct (Z.ltb_spec num 0) as [Hneg|Hpos]; [discriminate|].
  intros [= <-].
  set (y := map (fun v => add v start) _).
  assert (Ly : length y = Z.to_nat num).
  { unfold y. rewrite length_map.
    destruct (0 <? num - 1)%Z; [destruct (eqb _ _)|];
      rewrite !length_map, length_seq; reflexivity. }
  destruct (Z.ltb_spec 1 num) as [Hbig|Hsmall]; [|exact Ly].
  rewrite length_app. cbn [length].
  destruct y as [|y0 y] using rev_ind.
  - simpl in Ly. lia.
  - rewrite removelast_last. rewrite length_app in Ly. simpl in Ly. lia.
Qed.

Lemma ma_kernel_length (periods : Z) (type : string) (w : list A) :
  ma_kernel periods type = Ok w ->
  (0 <= periods)%Z /\ length w = Z.to_nat periods.
Proof.
  unfold ma_kernel. destruct (String.eqb type "simple").
  - unfold np_ones. destruct (Z.ltb_spec periods 0); [discriminate|].
    intros [= <-]. rewrite repeat_length. split; [assumption|reflexivity].
  - destruct (np_linspace (ofZ (-1)) (ofZ 0) periods) as [l|e] eqn:E;
      [|discriminate].
    simpl. intros [= <-]. rewrite length_map.
    split; [|eapply length_np_linspace; exact E].
    unfold np_linspace in E. destruct (Z.ltb_spec periods 0); [discriminate|lia].
Qed.

Lemma ma_kernel_negative (periods : Z) (type : string) :
  (periods < 0)%Z -> ma_kernel periods type = Raise ValueError.
Proof.
  intros Hneg. unfold ma_kernel, np_ones, np_linspace.
  destruct (Z.ltb_spec periods 0); [|lia].
  destruct (String.eqb type "simple"); reflexivity.
Qed.

Lemma ma_kernel_total (periods : Z) (type : string) :
  (0 <= periods)%Z -> exists w, ma_kernel periods type = Ok w.
Proof.
  intros Hpos. unfold ma_kernel, np_ones, np_linspace.
  destruct (Z.ltb_spec periods 0); [lia|].
  destruct (String.eqb type "simple"); eexists; reflexivity.
Qed.

Lemma length_normalise (w : list A) : length (normalise w) = length w.
Proof. apply length_map. Qed.

Lemma np_convolve_ok (a v : list A) :
  a <> [] -> v <> [] ->
  np_convolve a v = Ok (map (conv_at a v) (seq 0 (length a + length v - 1))).
Proof.
  intros Ha Hv. unfold np_convolve.
  destruct a; [contradiction|]. destruct v; [contradiction|]. reflexivity.
Qed.

Lemma np_convolve_empty_kernel (a : list A) :
  np_convolve a [] = Raise ValueError.
Proof. destruct a; reflexivity. Qed.

(** The samples [moving_average] keeps of the convolution. *)
Lemma moving_average_unfold (data w : list A) (periods : Z) (type : string) :
  ma_kernel periods type = Ok w -> data <> [] -> (1 <= periods)%Z ->
  moving_average data periods type =
  let mavg := map (conv_at data (normalise w)) (seq 0 (length data)) in
  v <- getitem mavg periods ;; Ok (setslice mavg periods v).
Proof.
  intros Hw Hdata Hper. unfold moving_average. rewrite Hw. cbn [bind].
  apply ma_kernel_length in Hw. destruct Hw as [_ Lw].
  rewrite np_convolve_ok; [|exact Hdata|].
  2:{ intros E. pose proof (length_normalise w) as L. rewrite E in L.
      simpl in L. lia. }
  cbn [bind]. rewrite firstn_map, firstn_seq, length_normalise.
  replace (Nat.min (length data) (length data + length w - 1))
    with (length data) by lia.
  reflexivity.
Qed.

(** Inside the data the bootstrap fills the first [periods] places with the
    sample at place [periods], whatever the kernel. *)
Lemma moving_average_bootstrap (data : list A) (periods : Z) (type : string) :
  (1 <= periods < Z.of_nat (length data))%Z ->
  exists mavg v,
    moving_average data periods type = Ok mavg /\
    length mavg = length data /\
    nth_error mavg (Z.to_nat periods) = Some v /\
    (forall i, i < Z.to_nat periods -> nth_error mavg i = Some v) /\
    (forall i, Z.to_nat periods <= i ->
       nth_error mavg i =
       nth_error (map (conv_at data (normalise match ma_kernel periods type with
                                               | Ok w => w
                                               | Raise _ => []
                                               end))
                      (seq 0 (length data))) i).
Proof.
  intros Hper.
  destruct (ma_kernel_total periods type) as [w Hw]; [lia|].
  assert (Hdata : data <> []) by (intros ->; simpl in Hper; lia).
  rewrite (moving_average_unfold data w periods type Hw Hdata) by lia. rewrite Hw. cbn zeta.
  set (mavg := map _ (seq 0 (length data))).
  assert (Lm : length mavg = length data)
    by (unfold mavg; rewrite length_map, length_seq; reflexivity).
  destruct (getitem_nonneg mavg periods) as [v [Hget Hnth]]; [lia|].
  rewrite Hget. cbn [bind]. exists (setslice mavg periods v), v.
  assert (Hstop : slice_stop (length mavg) periods = Z.to_nat periods)
    by (apply slice_stop_nonneg; lia).
  split; [reflexivity|]. split; [rewrite length_setslice; exact Lm|].
  split; [|split].
  - rewrite nth_error_setslice, Hstop, Nat.ltb_irrefl. exact Hnth.
  - intros i Hi. rewrite nth_error_setslice, Hstop.
    destruct (Nat.ltb_spec i (Z.to_nat periods)); [reflexivity|lia].
  - intros i Hi. rewrite nth_error_setslice, Hstop.
    destruct (Nat.ltb_spec i (Z.to_nat periods)); [lia|reflexivity].
Qed.

(** A window as long as the data, or longer, has no sample at place
    [periods] to fill from. *)
Lemma moving_average_short (data : list A) (periods : Z) (type : string) :
  data <> [] -> (1 <= periods)%Z -> (Z.of_nat (length data) <= periods)%Z ->
  moving_average data periods type = Raise IndexError.
Proof.
  intros Hdata Hper Hlen.
  destruct (ma_kernel_total periods type) as [w Hw]; [lia|].
  rewrite (moving_average_unfold data w periods type Hw Hdata) by lia. cbn zeta.
  rewrite getitem_beyond; [reflexivity|].
  rewrite length_map, length_seq. exact Hlen.
Qed.

(** A window of no or negative length is refused by numpy. *)
Lemma moving_average_nonpositive (data : list A) (periods : Z) (type : string) :
  (periods <= 0)%Z -> moving_average data periods type = Raise ValueError.
Proof.
  intros Hper. unfold moving_average.
  destruct (Z.eq_dec periods 0) as [->|Hne].
  - destruct (ma_kernel_total 0 type) as [w Hw]; [lia|].
    rewrite Hw. cbn [bind]. apply ma_kernel_length in Hw.
    destruct Hw as [_ Lw]. destruct w; [|discriminate].
    cbn [normalise map]. rewrite np_convolve_empty_kernel. reflexivity.
  - rewrite ma_kernel_negative by lia. reflexivity.
Qed.
End MovingAverageFacts.

(** ** Periodic returns *)

Section ReturnsFacts.
Context {A : Type} `{Numeric A}.

Lemma lift2_none_r (f : A -> A -> A) (x : option A) : lift2 f x None = None.
Proof. destruct x; reflexivity. Qed.

Lemma nth_error_map2_both {T U V : Type} (f : T -> U -> V)
  (l : list T) (m : list U) (i : nat) :
  nth_error (map2 f l m) i =
  match nth_error l i, nth_error m i with
  | Some x, Some y => Some (f x y)
  | _, _ => None
  end.
Proof.
  revert m i. induction l as [|a l IH]; intros [|b m] [|i]; simpl;
    try reflexivity.
  - destruct (nth_error l i); reflexivity.
  - apply IH.
Qed.

Lemma length_shift_values (l : list (option A)) (k : Z) :
  length (shift_values l k) = length l.
Proof.
  unfold shift_values. destruct (0 <=? k)%Z;
    rewrite length_app, repeat_length;
    [rewrite length_firstn|rewrite length_skipn]; lia.
Qed.

Lemma nth_error_shift_values (l : list (option A)) (k : Z) (i : nat) :
  (0 <= k)%Z -> i < length l ->
  nth_error (shift_values l k) i =
  Some (if i <? Z.to_nat k then None else nth (i - Z.to_nat k) l None).
Proof.
  intros Hk Hi. unfold shift_values.
  destruct (Z.leb_spec 0 k); [|lia].
  rewrite nth_error_app, repeat_length.
  destruct (Nat.ltb_spec i (Nat.min (Z.to_nat k) (length l))) as [Hlt|Hge].
  - rewrite nth_error_repeat by exact Hlt.
    destruct (Nat.ltb_spec i (Z.to_nat k)); [reflexivity|lia].
  - destruct (Nat.ltb_spec i (Z.to_nat k)); [lia|].
    rewrite nth_error_firstn.
    destruct (Nat.ltb_spec (i - Nat.min (Z.to_nat k) (length l))
                           (length l - Nat.min (Z.to_nat k) (length l))); [|lia].
    replace (i - Nat.min (Z.to_nat k) (length l)) with (i - Z.to_nat k) by lia.
    apply nth_error_nth'. lia.
Qed.

(** The Series [ts / ts.shift(period) - 1 + relative], place by place. *)
Lemma periodic_values (ts : Series A) (period relative : Z) :
  (0 <= period)%Z ->
  s_values (s_add_scalar (s_sub_scalar (s_div ts (shift ts period)) one)
                         (ofZ relative))
  = map (periodic_return (s_values ts) (Z.to_nat period) relative)
        (seq 0 (length (s_values ts))).
Proof.
  intros Hp. apply nth_error_ext. intros i. cbn [s_values s_add_scalar
    s_sub_scalar s_div shift].
  rewrite !nth_error_map, nth_error_map2_both, nth_error_seq.
  destruct (Nat.ltb_spec i (length (s_values ts))) as [Hi|Hi].
  - rewrite (nth_error_nth' (s_values ts) None Hi).
    rewrite nth_error_shift_values by assumption.
    cbn [option_map]. f_equal. unfold periodic_return. cbn [Nat.add].
    destruct (Nat.ltb_spec i (Z.to_nat period)); [|reflexivity].
    rewrite lift2_none_r. reflexivity.
  - destruct (nth_error (s_values ts) i) eqn:E; [|reflexivity].
    assert (i < length (s_values ts)); [|lia].
    apply nth_error_Some. rewrite E. discriminate.
Qed.

Lemma nth_error_cumprod_from (l : list (option A)) (acc : A) (i : nat) :
  nth_error (cumprod_from acc l) i =
  option_map (fun x => match x with
                       | None => None
                       | Some _ => norm (fold_left mul (present (firstn (S i) l)) acc)
                       end) (nth_error l i).
Proof.
  revert acc i. induction l as [|[v|] l IH]; intros acc [|i];
    try reflexivity.
  - cbn [cumprod_from nth_error]. rewrite IH. reflexivity.
  - cbn [cumprod_from nth_error]. rewrite IH. reflexivity.
Qed.

Lemma length_cumprod_from (l : list (option A)) (acc : A) :
  length (cumprod_from acc l) = length l.
Proof.
  revert acc. induction l as [|[v|] l IH]; intros acc; simpl; auto.
Qed.

Lemma nth_error_cumprod (l : list (option A)) (i : nat) :
  i < length l ->
  nth_error (cumprod_from one l) i = Some (running_product l i).
Proof.
  intros Hi. rewrite nth_error_cumprod_from.
  rewrite (nth_error_nth' l None Hi). reflexivity.
Qed.

(** What [returns] answers in periodic mode. *)
Lemma returns_periodic_frame (now : Z) (ts : Series A) (kwargs : returns_kwargs) :
  kw_start kwargs = None ->
  let relative :=
    if String.eqb (kwargs_get (kw_type kwargs) "net"%string) "net"
    then 0%Z else 1%Z in
  let rets_df :=
    s_add_scalar
      (s_sub_scalar (s_div ts (shift ts (kwargs_get (kw_period kwargs) 1%Z))) one)
      (ofZ relative) in
  returns now ts kwargs =
  Ok (Frame (if kwargs_get (kw_cumulative kwargs) false
             then cumprod rets_df else s_tail rets_df)).
Proof.
  intros Hstart. unfold returns. rewrite Hstart. reflexivity.
Qed.
(** Without [cumulative]: the periodic series less its first entry. *)
Lemma returns_plain (now : Z) (ts : Series A) (kwargs : returns_kwargs) :
  kw_start kwargs = None ->
  kwargs_get (kw_cumulative kwargs) false = false ->
  let period := kwargs_get (kw_period kwargs) 1%Z in
  let relative :=
    if String.eqb (kwargs_get (kw_type kwargs) "net"%string) "net"
    then 0%Z else 1%Z in
  let n := length (s_values ts) in
  (0 <= period)%Z ->
  exists out,
    returns now ts kwargs = Ok (Frame out) /\
    s_index out = tl (s_index ts) /\
    length (s_values out) = n - 1 /\
    (forall i, S i < n ->
       nth_error (s_values out) i
       = Some (periodic_return (s_values ts) (Z.to_nat period) relative (S i))).
Proof.
  intros Hstart Hcum period relative n Hp.
  rewrite returns_periodic_frame by exact Hstart. rewrite Hcum.
  eexists. split; [reflexivity|].
  pose proof (periodic_values ts period relative Hp) as Hv. fold n in Hv.
  fold period. fold relative. cbn [s_tail s_index s_values].
  rewrite Hv. split; [reflexivity|].
  split; [destruct n; simpl; rewrite ?length_map, ?length_seq; lia|].
  intros i Hi. destruct n as [|n']; [lia|]. cbn [seq map tl].
  rewrite nth_error_map, nth_error_seq.
  destruct (Nat.ltb_spec i n'); [reflexivity|lia].
Qed.

(** With [cumulative]: the running product of the periodic series, the
    leading missing entries in their places. *)
Lemma returns_compounded (now : Z) (ts : Series A) (kwargs : returns_kwargs) :
  kw_start kwargs = None ->
  kwargs_get (kw_cumulative kwargs) false = true ->
  let period := kwargs_get (kw_period kwargs) 1%Z in
  let relative :=
    if String.eqb (kwargs_get (kw_type kwargs) "net"%string) "net"
    then 0%Z else 1%Z in
  let n := length (s_values ts) in
  let ret := periodic_return (s_values ts) (Z.to_nat period) relative in
  (0 <= period)%Z ->
  exists out,
    returns now ts kwargs = Ok (Frame out) /\
    s_index out = s_index ts /\
    length (s_values out) = n /\
    (forall i, i < n ->
       nth_error (s_values out) i
       = Some (running_product (map ret (seq 0 n)) i)) /\
    (forall i, i < n -> i < Z.to_nat period ->
       nth_error (s_values out) i = Some None).
Proof.
  intros Hstart Hcum period relative n ret Hp.
  rewrite returns_periodic_frame by exact Hstart. rewrite Hcum.
  eexists. split; [reflexivity|].
  pose proof (periodic_values ts period relative Hp) as Hv.
  fold n in Hv. fold ret in Hv.
  fold period. fold relative. cbn [cumprod s_index s_values].
  rewrite Hv.
  assert (Ln : length (map ret (seq 0 n)) = n)
    by (rewrite length_map, length_seq; reflexivity).
  split; [reflexivity|]. split; [rewrite length_cumprod_from; exact Ln|].
  split.
  - intros i Hi. apply nth_error_cumprod. lia.
  - intros i Hi Hlt. rewrite nth_error_cumprod by lia. f_equal.
    unfold running_product.
    rewrite (nth_error_nth (map ret (seq 0 n)) i None (x := ret i)).
    + unfold ret, periodic_return.
      destruct (Nat.ltb_spec i (Z.to_nat period)); [reflexivity|lia].
    + rewrite nth_error_map, nth_error_seq.
      destruct (Nat.ltb_spec i n); [reflexivity|lia].
Qed.
End ReturnsFacts.

(** ** Labels and places *)

Lemma py_range_from_nat (a : nat) (b : Z) :
  py_range (Z.of_nat a) b = map Z.of_nat (seq a (Z.to_nat (b - Z.of_nat a))).
Proof.
  unfold py_range. generalize (Z.to_nat (b - Z.of_nat a)) as m. intros m.
  assert (Hgen : forall s,
            map (fun k => (Z.of_nat a + Z.of_nat k)%Z) (seq s m)
            = map Z.of_nat (seq (a + s) m)).
  { induction m as [|m IH]; intros s; [reflexivity|].
    cbn [seq map]. f_equal; [lia|].
    rewrite IH. f_equal. f_equal. lia. }
  rewrite Hgen, Nat.add_0_r. reflexivity.
Qed.

Section Labels.
Context {A : Type} `{Numeric A}.

Lemma loc_at_missing (index : list Z) (values : list (option A)) (label : Z) :
  ~ In label index -> loc_at index values label = Raise KeyError.
Proof.
  revert values. induction index as [|i index IH]; intros [|v values] Hm;
    try reflexivity.
  cbn [loc_at]. destruct (Z.eqb_spec i label) as [->|Hne].
  - exfalso. apply Hm. left. reflexivity.
  - apply IH. intros Hin. apply Hm. right. exact Hin.
Qed.

Lemma loc_at_found (index : list Z) (values : list (option A)) (label : Z) :
  In label index -> length index = length values ->
  exists v, loc_at index values label = Ok v.
Proof.
  revert values. induction index as [|i index IH]; intros values Hin Hlen;
    [contradiction|].
  destruct values as [|v values]; [cbn in Hlen; discriminate|].
  cbn [loc_at]. destruct (Z.eqb_spec i label) as [->|Hne].
  - exists v. reflexivity.
  - apply IH; [|cbn in Hlen; lia]. destruct Hin as [->|Hin]; [contradiction|exact Hin].
Qed.

Lemma loc_at_place (values : list (option A)) (s m : nat) (k : nat) :
  (k < m)%nat -> (m <= length values)%nat ->
  loc_at (map Z.of_nat (seq s m)) values (Z.of_nat (s + k))
  = Ok (nth k values None).
Proof.
  revert values s k. induction m as [|m IH]; intros values s k Hk Hm; [lia|].
  destruct values as [|v values]; [cbn in Hm; lia|].
  cbn [seq map loc_at]. destruct (Z.eqb_spec (Z.of_nat s) (Z.of_nat (s + k))).
  - replace k with 0%nat by lia. reflexivity.
  - destruct k as [|k]; [exfalso; apply n; f_equal; lia|].
    cbn [nth]. replace (s + S k)%nat with (S s + k)%nat by lia.
    apply IH; [lia|cbn in Hm; lia].
Qed.

(** In the Series of a plain sequence the label of a place is its number. *)
Lemma loc_series_of (l : list A) (k : nat) :
  (k < length l)%nat ->
  loc (series_of l) (Z.of_nat k) = Ok (nth k (map norm l) None).
Proof.
  intros Hk. unfold loc, series_of. cbn [s_index s_values].
  change 0%Z with (Z.of_nat 0). rewrite py_range_from_nat.
  rewrite Z.sub_0_r, Nat2Z.id.
  apply (loc_at_place (map norm l) 0 (length l) k Hk).
  rewrite length_map. lia.
Qed.
End Labels.

(** ** Exact arithmetic *)

Ltac unfold_R :=
  unfold one, zero in *;
  cbn [ofZ add sub mul div opp leb ltb isnan R_Numeric] in *.

Section ExactReturns.
Local Open Scope R_scope.

Lemma present_app {A : Type} (l l' : list (option A)) :
  present (l ++ l') = present l ++ present l'.
Proof.
  induction l as [|[v|] l IH]; simpl; auto. rewrite IH. reflexivity.
Qed.

(** The return of a place that has an earlier observation to compare with. *)
Lemma periodic_return_at (P : list R) (period : nat) (relative : Z) (j : nat) :
  (period <= j < length P)%nat ->
  periodic_return (map norm P) period relative j
  = Some (nth j P 0 / nth (j - period) P 0 - 1 + IZR relative).
Proof.
  intros Hj. unfold periodic_return.
  destruct (Nat.ltb_spec j period); [lia|].
  rewrite !(nth_indep _ None (norm 0)) by (rewrite length_map; lia).
  rewrite !map_nth. reflexivity.
Qed.

(** The product of the gross returns up to place [i] telescopes. *)
Lemma gross_product_telescopes (P : list R) (i : nat) :
  Forall (fun p => p <> 0) P -> (i < length P)%nat ->
  fold_left Rmult
    (present (map (periodic_return (map norm P) 1 1) (seq 0 (S i)))) 1
  = nth i P 0 / nth 0 P 0.
Proof.
  intros Hnz. induction i as [|i IH]; intros Hi.
  - cbn [seq map periodic_return Nat.ltb Nat.leb present fold_left].
    assert (nth 0 P 0 <> 0).
    { rewrite Forall_forall in Hnz. apply Hnz. apply nth_In. exact Hi. }
    field. assumption.
  - rewrite seq_S, map_app, present_app, fold_left_app, IH by lia.
    cbn [Nat.add map]. rewrite periodic_return_at by lia.
    cbn [present fold_left]. replace (S i - 1)%nat with i by lia.
    assert (nth 0 P 0 <> 0 /\ nth i P 0 <> 0) as [H0 Hi'].
    { rewrite Forall_forall in Hnz. split; apply Hnz; apply nth_In; lia. }
    field. split; assumption.
Qed.

Lemma loc_norm (P : list R) (k : nat) :
  (k < length P)%nat ->
  loc (series_of P) (Z.of_nat k) = Ok (Some (nth k P 0)).
Proof.
  intros Hk. rewrite loc_series_of by exact Hk.
  rewrite (nth_indep _ None (norm 0)) by (rewrite length_map; exact Hk).
  rewrite map_nth. reflexivity.
Qed.

(** The loop of [average_returns] multiplies the accumulator by one factor
    per place that is a multiple of the stride. *)
Lemma average_loop_product (relative period : Z) (suf pre : list R) (acc : R) :
  period <> 0%Z ->
  average_loop (series_of (pre ++ suf)) relative (Some period)
    (map Z.of_nat (seq (length pre) (length suf))) (Some acc)
  = Ok (Some (acc * fold_right Rmult 1
                      (map (fun x => 1 + x + IZR relative)
                           (stride_from (Z.of_nat (length pre)) suf period)))).
Proof.
  intros Hp. revert pre acc. induction suf as [|x suf IH]; intros pre acc.
  - cbn. f_equal. f_equal. ring.
  - cbn [length seq map average_loop stride_from].
    assert (Hmod : py_mod (Z.of_nat (length pre)) (Some period)
                   = Ok (Z.of_nat (length pre) mod period)%Z)
      by (destruct period; [contradiction|reflexivity|reflexivity]).
    rewrite Hmod. cbn [bind].
    specialize (IH (pre ++ [x])). rewrite <- app_assoc in IH. cbn [app] in IH.
    rewrite length_app in IH. cbn [length] in IH.
    replace (length pre + 1)%nat with (S (length pre)) in IH by lia.
    replace (Z.of_nat (length pre) + 1)%Z with (Z.of_nat (S (length pre))) by lia.
    destruct (Z.of_nat (length pre) mod period =? 0)%Z.
    + rewrite loc_norm by (rewrite length_app; simpl; lia).
      cbn [bind]. rewrite app_nth2, Nat.sub_diag by lia. cbn [nth].
      change (lift2 mul (Some acc)
                (lift2 add (lift2 add (Some one) (Some x)) (Some (ofZ relative))))
        with (Some (acc * (1 + x + IZR relative))).
      rewrite IH. cbn [map fold_right]. f_equal. f_equal. ring.
    + apply IH.
Qed.
End ExactReturns.

(** ** Pairwise summation *)

Section PairwiseFacts.
Context {A : Type} `{Numeric A}.
Local Open Scope num_scope.

(** The cut of a long array leaves two shorter ones. *)
Lemma pairwise_cut (n : nat) :
  (128 < n)%nat ->
  (0 < n / 2 - (n / 2) mod 8 < n)%nat.
Proof.
  intros Hn.
  pose proof (Nat.mod_upper_bound (n / 2) 8 ltac:(lia)).
  pose proof (Nat.div_lt n 2 ltac:(lia) ltac:(lia)).
  assert (64 <= n / 2)%nat by (apply Nat.div_le_lower_bound; lia).
  lia.
Qed.

(** The depth bound is never what ends the recursion: any two bounds that
    reach the length of the array give the same sum. *)
Lemma pairwise_sum_fuel (fuel fuel' : nat) (l : list A) :
  (length l <= fuel)%nat -> (length l <= fuel')%nat ->
  pairwise_sum fuel l = pairwise_sum fuel' l.
Proof.
  revert fuel' l. induction fuel as [|fuel IH]; intros fuel' l Hl Hl'.
  - destruct l; [|cbn in Hl; lia]. destruct fuel'; reflexivity.
  - destruct fuel' as [|fuel'].
    + destruct l; [|cbn in Hl'; lia]. reflexivity.
    + cbn [pairwise_sum].
      destruct (Nat.ltb_spec (length l) 8); [reflexivity|].
      destruct (Nat.leb_spec (length l) 128); [reflexivity|].
      pose proof (pairwise_cut (length l) ltac:(lia)) as Hcut.
      rewrite (IH fuel' (firstn _ l)), (IH fuel' (skipn _ l));
        rewrite ?length_firstn, ?length_skipn; try lia.
      reflexivity.
Qed.
End PairwiseFacts.

Section ExactSums.
Local Open Scope R_scope.

Lemma fold_right_plus_app (l l' : list R) :
  fold_right Rplus 0 (l ++ l')
  = fold_right Rplus 0 l + fold_right Rplus 0 l'.
Proof.
  induction l as [|x l IH]; cbn [app fold_right]; [ring|]. rewrite IH. ring.
Qed.

Lemma accumulate_plain (l : list R) (init : R) :
  accumulate l init = init + fold_right Rplus 0 l.
Proof.
  unfold accumulate. revert init.
  induction l as [|x l IH]; intros init; cbn [fold_left fold_right].
  - ring.
  - rewrite IH. unfold_R. ring.
Qed.

Lemma fold_right_plus_map2 (r c : list R) :
  length r = length c ->
  fold_right Rplus 0 (map2 add r c)
  = fold_right Rplus 0 r + fold_right Rplus 0 c.
Proof.
  revert c. induction r as [|x r IH]; intros [|y c] Hlen;
    cbn in Hlen; try discriminate; cbn [map2 fold_right].
  - ring.
  - rewrite IH by lia. unfold_R. ring.
Qed.

Lemma tree8_plain (r : list R) :
  length r = 8%nat -> tree8 r = fold_right Rplus 0 r.
Proof.
  intros Hr.
  do 8 (destruct r as [|? r]; [cbn in Hr; discriminate|]).
  destruct r; [|cbn in Hr; discriminate].
  cbn [tree8 fold_right]. unfold_R. ring.
Qed.

(** The eight running sums hold, between them, all that was added. *)
Lemma accumulate8_plain (k : nat) (r l : list R) :
  length r = 8%nat -> (8 * k <= length l)%nat ->
  length (fst (accumulate8 k r l)) = 8%nat /\
  fold_right Rplus 0 (fst (accumulate8 k r l))
  + fold_right Rplus 0 (snd (accumulate8 k r l))
  = fold_right Rplus 0 r + fold_right Rplus 0 l.
Proof.
  revert r l. induction k as [|k IH]; intros r l Hr Hl.
  - cbn [accumulate8 fst snd]. split; [exact Hr|reflexivity].
  - cbn [accumulate8].
    assert (Hf : length (firstn 8 l) = 8%nat) by (rewrite length_firstn; lia).
    destruct (IH (map2 add r (firstn 8 l)) (skipn 8 l)) as [L E].
    + rewrite length_map2. lia.
    + rewrite length_skipn. lia.
    + split; [exact L|]. rewrite E, fold_right_plus_map2 by lia.
      rewrite <- (firstn_skipn 8 l) at 3. rewrite fold_right_plus_app. ring.
Qed.

Lemma block_sum_plain (l : list R) :
  (8 <= length l)%nat -> block_sum l = fold_right Rplus 0 l.
Proof.
  intros Hl. unfold block_sum.
  assert (Hd : (8 * (length l / 8) <= length l)%nat)
    by (apply Nat.Div0.mul_div_le).
  destruct (accumulate8_plain (length l / 8 - 1) (firstn 8 l) (skipn 8 l))
    as [L E].
  - rewrite length_firstn. lia.
  - rewrite length_skipn. lia.
  - destruct (accumulate8 _ _ _) as [r rest]. cbn [fst snd] in L, E.
    rewrite accumulate_plain, tree8_plain, E by exact L.
    rewrite <- (firstn_skipn 8 l) at 3. rewrite fold_right_plus_app. reflexivity.
Qed.

Lemma pairwise_sum_plain (fuel : nat) (l : list R) :
  pairwise_sum fuel l = fold_right Rplus 0 l.
Proof.
  revert l. induction fuel as [|fuel IH]; intros l; cbn [pairwise_sum];
    destruct (Nat.ltb_spec (length l) 8);
    try (rewrite accumulate_plain; unfold_R; ring);
    destruct (Nat.leb_spec (length l) 128);
    try (apply block_sum_plain; lia).
  rewrite !IH. unfold_R. rewrite <- fold_right_plus_app, firstn_skipn. reflexivity.
Qed.

(** In exact arithmetic the order of the additions does not show: [a.sum()]
    is the sum of the elements. *)
Lemma np_sum_plain (l : list R) : np_sum l = fold_right Rplus 0 l.
Proof. unfold np_sum. rewrite pairwise_sum_plain. unfold_R. ring. Qed.

Lemma np_sum_nil_R : np_sum (@nil R) = 0.
Proof. rewrite np_sum_plain. reflexivity. Qed.

Lemma np_sum_cons_R (x : R) (l : list R) : np_sum (x :: l) = x + np_sum l.
Proof. rewrite !np_sum_plain. reflexivity. Qed.

(** So is the dot product of a convolution sample. *)
Lemma accumulate_np_sum (l : list R) : accumulate l zero = np_sum l.
Proof. rewrite accumulate_plain, np_sum_plain. unfold_R. ring. Qed.
End ExactSums.

(** Sums of lists written out, element by element. *)
Ltac sum_R := rewrite ?np_sum_cons_R, ?np_sum_nil_R.

(** ** The exponential kernel in exact arithmetic *)

Section ExactKernel.
Local Open Scope R_scope.

Lemma np_sum_app_R (l l' : list R) : np_sum (l ++ l') = np_sum l + np_sum l'.
Proof.
  rewrite !np_sum_plain. apply fold_right_plus_app.
Qed.

(** A sum over a run of places, read from its far end. *)
Lemma np_sum_reversed (g : nat -> R) (p lo : nat) :
  np_sum (map g (seq lo p))
  = np_sum (map (fun j => g (lo + p - 1 - j)%nat) (seq 0 p)).
Proof.
  revert lo. induction p as [|p IH]; intros lo; [reflexivity|].
  rewrite (seq_S p 0), map_app, np_sum_app_R.
  cbn [seq map Nat.add]. rewrite !np_sum_cons_R, np_sum_nil_R, IH.
  replace (lo + S p - 1 - p)%nat with lo by lia.
  rewrite (map_ext_in (fun j => g (lo + S p - 1 - j)%nat)
                      (fun j => g (S lo + p - 1 - j)%nat)).
  - ring.
  - intros j Hj. apply in_seq in Hj. f_equal. lia.
Qed.

Lemma np_sum_positive (l : list R) :
  l <> [] -> Forall (fun x => 0 < x) l -> 0 < np_sum l.
Proof.
  intros Hne Hpos. induction Hpos as [|x l Hx Hl IH]; [contradiction|].
  rewrite np_sum_cons_R. destruct l as [|y l].
  - rewrite np_sum_nil_R. lra.
  - assert (0 < np_sum (y :: l)) by (apply IH; discriminate). lra.
Qed.


Lemma nth_map_seq {T : Type} (f : nat -> T) (n j : nat) (d : T) :
  (j < n)%nat -> nth j (map f (seq 0 n)) d = f j.
Proof.
  intros Hj. rewrite (nth_indep _ d (f 0%nat))
    by (rewrite length_map, length_seq; exact Hj).
  rewrite (map_nth f), seq_nth by exact Hj. reflexivity.
Qed.


Lemma nth_map_in {T U : Type} (g : T -> U) (l : list T) (j : nat) (d : T) (d' : U) :
  (j < length l)%nat -> nth j (map g l) d' = g (nth j l d).
Proof.
  intros Hj. rewrite (nth_indep _ d' (g d)) by (rewrite length_map; exact Hj).
  apply map_nth.
Qed.

End ExactKernel.

(** ** The oscillator in exact arithmetic *)

Lemma length_np_diff {A : Type} `{Numeric A} (l : list A) :
  length (np_diff l) = (length l - 1)%nat.
Proof.
  induction l as [|x [|y l] IH]; try reflexivity.
  change (np_diff (x :: y :: l)) with (sub y x :: np_diff (y :: l)).
  cbn [length] in *. rewrite IH. lia.
Qed.

Section ExactOscillator.
Local Open Scope R_scope.






End ExactOscillator.

Section SeedSuffices.
Local Open Scope R_scope.



End SeedSuffices.

(** ** Loops that run to their end *)

Section Totality.
Context {A : Type} `{Numeric A}.

Lemma getitem_total {T : Type} (l : list T) (i : Z) :
  py_index (length l) i <> None -> exists v, getitem l i = Ok v.
Proof.
  unfold getitem. destruct (py_index (length l) i) as [k|] eqn:E;
    [|contradiction].
  intros _. apply py_index_bound in E.
  destruct (nth_error l k) as [v|] eqn:En.
  - exists v. reflexivity.
  - apply nth_error_None in En. lia.
Qed.

Lemma setitem_total {T : Type} (l : list T) (i : Z) (v : T) :
  py_index (length l) i <> None -> exists l', setitem l i v = Ok l'.
Proof.
  unfold setitem. destruct (py_index (length l) i) as [k|]; [|contradiction].
  intros _. eexists. reflexivity.
Qed.

Lemma py_index_in_reach (n : nat) (i : Z) :
  (- Z.of_nat n <= i < Z.of_nat n)%Z -> py_index n i <> None.
Proof.
  intros Hi. unfold py_index.
  destruct (Z.leb_spec 0 i); destruct (Z.ltb_spec i (Z.of_nat n));
    destruct (Z.ltb_spec i 0); destruct (Z.leb_spec (- Z.of_nat n) i);
    cbn; try discriminate; lia.
Qed.

(** The loop of [relative_strength] runs to its end as long as the indices
    it uses exist. *)
Lemma rs_loop_total (deltas : list A) (periods : Z) (idxs : list Z) :
  forall (st : A * A) (rsi : list A),
    (forall i, In i idxs ->
       py_index (length deltas) (i - 1) <> None /\
       py_index (length rsi) i <> None) ->
    exists rsi',
      rs_loop deltas periods idxs st rsi = Ok rsi' /\
      length rsi' = length rsi.
Proof.
  induction idxs as [|i idxs IH]; intros st rsi Hidx.
  - exists rsi. split; reflexivity.
  - destruct (Hidx i (or_introl eq_refl)) as [Hd Hr].
    destruct (getitem_total deltas (i - 1) Hd) as [delta Hget].
    cbn [rs_loop]. rewrite Hget. cbn [bind].
    destruct (setitem_total rsi i (rs_value (rs_update periods st delta)) Hr)
      as [rsi1 Hset].
    rewrite Hset. cbn [bind].
    pose proof (length_setitem _ _ _ _ Hset) as L1.
    destruct (IH (rs_update periods st delta) rsi1) as [rsi' [Hrun L']].
    + intros k Hk. rewrite L1. apply Hidx. right. exact Hk.
    + exists rsi'. split; [exact Hrun|lia].
Qed.

(** The loop of [average_returns] runs to its end for a stride other than
    zero, whatever its sign, as long as the integers it looks up are labels
    of the index. *)
Lemma average_loop_total (ts : Series A) (relative period : Z)
  (idxs : list Z) :
  period <> 0%Z ->
  length (s_index ts) = length (s_values ts) ->
  (forall i, In i idxs -> In i (s_index ts)) ->
  forall avg_ret, exists r,
    average_loop ts relative (Some period) idxs avg_ret = Ok r.
Proof.
  intros Hp Hlen. induction idxs as [|i idxs IH]; intros Hidx avg_ret.
  - exists avg_ret. reflexivity.
  - cbn [average_loop].
    assert (Hmod : py_mod i (Some period) = Ok (i mod period)%Z)
      by (destruct period; [contradiction|reflexivity|reflexivity]).
    rewrite Hmod. cbn [bind].
    assert (Hrest : forall k, In k idxs -> In k (s_index ts))
      by (intros k Hk; apply Hidx; right; exact Hk).
    destruct (i mod period =? 0)%Z.
    + destruct (loc_at_found (s_index ts) (s_values ts) i) as [x Hget];
        [apply Hidx; left; reflexivity|exact Hlen|].
      unfold loc. rewrite Hget. cbn [bind]. apply IH. exact Hrest.
    + apply IH. exact Hrest.
Qed.

Lemma average_loop_zero_stride (ts : Series A) (relative : Z)
  (i : Z) (idxs : list Z) (avg_ret : option A) :
  average_loop ts relative (Some 0%Z) (i :: idxs) avg_ret
  = Raise ZeroDivisionError.
Proof. reflexivity. Qed.
End Totality.

(** ** Division by zero in IEEE arithmetic *)

Section IEEEQuotients.

(** A float that compares equal to zero is a zero of either sign. *)
Lemma eqb_zero_inv (d : float) :
  PrimFloat.eqb d PrimFloat.zero = true ->
  exists s, Prim2SF d = S754_zero s.
Proof.
  rewrite eqb_spec. change (Prim2SF PrimFloat.zero) with (S754_zero false).
  destruct (Prim2SF d) as [s|s| |s m e]; cbn; try discriminate.
  - intros _. exists s. reflexivity.
  - destruct s; discriminate.
  - destruct s; discriminate.
Qed.

(** A zero times a finite nonzero float is a zero. *)
Lemma mul_zero_finite (d c : float) (s sc : bool) (m : positive) (e : Z) :
  Prim2SF d = S754_zero s -> Prim2SF c = S754_finite sc m e ->
  Prim2SF (PrimFloat.mul d c) = S754_zero (xorb s sc).
Proof.
  intros Hd Hc. rewrite mul_spec, Hd, Hc. reflexivity.
Qed.

(** A NaN is the one float that differs from itself. *)
Lemma is_nan_spec (x : float) :
  PrimFloat.is_nan x
  = match Prim2SF x with S754_nan => true | _ => false end.
Proof.
  unfold PrimFloat.is_nan. rewrite eqb_spec.
  destruct (Prim2SF x) as [s|s| |s m e]; try (destruct s; reflexivity);
    try reflexivity.
  unfold SFeqb, SFcompare.
  rewrite Z.compare_refl, Pos.compare_cont_refl. destruct s; reflexivity.
Qed.

(** Divided by a zero, a NaN or a zero gives a NaN and every other float an
    infinity. *)
Lemma div_by_zero (x z : float) (s : bool) :
  Prim2SF z = S754_zero s ->
  PrimFloat.is_nan (PrimFloat.div x z)
  = PrimFloat.is_nan x || PrimFloat.eqb x PrimFloat.zero /\
  PrimFloat.is_infinity (PrimFloat.div x z)
  = negb (PrimFloat.is_nan x || PrimFloat.eqb x PrimFloat.zero).
Proof.
  intros Hz. rewrite !is_nan_spec. unfold PrimFloat.is_infinity.
  rewrite !eqb_spec, abs_spec, div_spec, Hz.
  change (Prim2SF infinity) with (S754_infinity false).
  change (Prim2SF PrimFloat.zero) with (S754_zero false).
  destruct (Prim2SF x) as [sx|sx| |sx m e]; cbn; try (split; reflexivity).
  all: destruct sx; split; reflexivity.
Qed.
End IEEEQuotients.

(** ** Windows in exact arithmetic *)

Section ExactWindows.
Local Open Scope R_scope.

Lemma np_sum_scaled (g : nat -> R) (c : R) (l : list nat) :
  np_sum (map (fun k => g k * c) l) = np_sum (map g l) * c.
Proof.
  induction l as [|k l IH]; cbn [map]; sum_R; unfold_R; [ring|].
  rewrite IH. ring.
Qed.

Lemma np_sum_divided (w : list R) (s : R) :
  np_sum (map (fun x => x / s) w) = np_sum w / s.
Proof.
  induction w as [|x w IH]; cbn [map]; sum_R; unfold_R.
  - unfold Rdiv. ring.
  - rewrite IH. unfold Rdiv. ring.
Qed.

Lemma np_sum_places (w : list R) :
  np_sum (map (fun j => nth j w 0) (seq 0 (length w))) = np_sum w.
Proof.
  f_equal. apply nth_error_ext. intros i.
  rewrite nth_error_map, nth_error_seq.
  destruct (Nat.ltb_spec i (length w)) as [Hi|Hi].
  - cbn [option_map Nat.add]. symmetry. apply nth_error_nth'. exact Hi.
  - symmetry. apply nth_error_None. exact Hi.
Qed.

(** A full window of the convolution, read by lag. *)
Lemma conv_at_window (data w : list R) (n : nat) :
  (1 <= length w)%nat -> (length w - 1 <= n < length data)%nat ->
  conv_at data w n
  = np_sum (map (fun j => nth (n - j) data 0 * nth j w 0) (seq 0 (length w))).
Proof.
  intros Hw Hn. unfold conv_at. rewrite accumulate_np_sum.
  replace (Nat.min n (length data - 1)) with n by lia.
  replace (S n - (n - (length w - 1)))%nat with (length w) by lia.
  rewrite np_sum_reversed. f_equal. apply map_ext_in.
  intros j Hj. apply in_seq in Hj. unfold_R. f_equal; f_equal; lia.
Qed.

(** Either kernel is made of positive weights, one per place of the window. *)
Lemma ma_kernel_positive (periods : Z) (type : string) :
  (1 <= periods)%Z ->
  exists kern,
    ma_kernel periods type = Ok kern /\
    length kern = Z.to_nat periods /\
    Forall (fun x => 0 < x) kern.
Proof.
  intros Hp. destruct (ma_kernel_total (A := R) periods type) as [kern Hk]; [lia|].
  exists kern. split; [exact Hk|].
  destruct (ma_kernel_length periods type kern Hk) as [_ Lk].
  split; [exact Lk|]. unfold ma_kernel in Hk.
  destruct (String.eqb type "simple").
  - unfold np_ones in Hk. destruct (Z.ltb_spec periods 0); [lia|].
    injection Hk as <-. apply Forall_forall. intros x Hx.
    apply repeat_spec in Hx. subst x. unfold_R. lra.
  - destruct (np_linspace (ofZ (-1)) (ofZ 0) periods) as [l|e]; [|discriminate].
    cbn [bind] in Hk. injection Hk as <-.
    apply Forall_map. apply Forall_forall. intros x _. apply exp_pos.
Qed.

Lemma normalise_total (w : list R) :
  np_sum w <> 0 -> np_sum (normalise w) = 1.
Proof.
  intros Hs. unfold normalise. unfold_R. rewrite np_sum_divided.
  field. exact Hs.
Qed.

Lemma ma_kernel_unit_sum (periods : Z) (type : string) :
  (1 <= periods)%Z ->
  exists kern,
    ma_kernel periods type = Ok kern /\
    length (normalise kern) = Z.to_nat periods /\
    0 < np_sum kern /\
    np_sum (normalise kern) = 1.
Proof.
  intros Hp. destruct (ma_kernel_positive periods type Hp) as [kern [Hk [Lk Hpos]]].
  assert (Hs : 0 < np_sum kern).
  { apply np_sum_positive; [|exact Hpos].
    destruct kern; [simpl in Lk; lia|discriminate]. }
  exists kern. split; [exact Hk|]. split; [rewrite length_normalise; exact Lk|].
  split; [exact Hs|]. apply normalise_total. lra.
Qed.

Lemma np_sum_repeat (c : R) (k : nat) :
  np_sum (repeat c k) = IZR (Z.of_nat k) * c.
Proof.
  induction k as [|k IH]; cbn [repeat]; sum_R; unfold_R; [cbn; ring|].
  rewrite IH, Nat2Z.inj_succ, succ_IZR. ring.
Qed.

Lemma nth_repeat_in (c d : R) (k i : nat) :
  (i < k)%nat -> nth i (repeat c k) d = c.
Proof.
  intros Hi. apply nth_error_nth. apply nth_error_repeat. exact Hi.
Qed.

(** A full window over a constant series gives the constant back. *)
Lemma conv_at_constant (c : R) (k : nat) (w : list R) (n : nat) :
  (1 <= length w)%nat -> (length w - 1 <= n < k)%nat ->
  np_sum w = 1 ->
  conv_at (repeat c k) w n = c.
Proof.
  intros Hw Hn Hs.
  rewrite conv_at_window by (rewrite ?repeat_length; lia).
  rewrite (map_ext_in _ (fun j => nth j w 0 * c)).
  - rewrite np_sum_scaled, np_sum_places, Hs. ring.
  - intros j Hj. apply in_seq in Hj. rewrite nth_repeat_in by lia. ring.
Qed.
(** A run of places of a list, read one by one. *)
Lemma map_nth_run {T : Type} (l : list T) (d : T) (a k : nat) :
  (a + k <= length l)%nat ->
  map (fun m => nth m l d) (seq a k) = firstn k (skipn a l).
Proof.
  intros Hk. apply nth_error_ext. intros i.
  rewrite nth_error_map, nth_error_seq, nth_error_firstn, nth_error_skipn.
  destruct (Nat.ltb_spec i k) as [Hi|Hi]; [|reflexivity].
  cbn [option_map]. symmetry. apply nth_error_nth'. lia.
Qed.

(** From place [periods - 1] on, a sample of the convolution with the
    simple kernel is the mean of the [periods] values that end there. *)
Lemma simple_window_mean (data : list R) (periods : Z) (n : nat) :
  (1 <= periods)%Z -> (Z.to_nat periods - 1 <= n < length data)%nat ->
  conv_at data (normalise (repeat one (Z.to_nat periods))) n
  = np_sum (map (fun j => nth (n - j) data 0) (seq 0 (Z.to_nat periods)))
    / IZR periods.
Proof.
  intros Hp Hn.
  assert (Lw : length (normalise (repeat (@one R _) (Z.to_nat periods)))
               = Z.to_nat periods)
    by (rewrite length_normalise, repeat_length; reflexivity).
  rewrite conv_at_window by (rewrite Lw; lia). rewrite Lw.
  rewrite (map_ext_in _ (fun j => nth (n - j) data 0 * (1 / IZR periods))).
  - rewrite np_sum_scaled. unfold Rdiv. ring.
  - intros j Hj. apply in_seq in Hj. f_equal. unfold normalise.
    rewrite (nth_map_in _ _ _ 0) by (rewrite repeat_length; lia).
    rewrite nth_repeat_in by lia. unfold_R. rewrite np_sum_repeat.
    rewrite Z2Nat.id by lia. rewrite Rmult_1_r. reflexivity.
Qed.

(** What the simple moving average holds at a place it does not fill. *)
Lemma simple_sample (data mavg : list R) (periods : Z) (n : nat) :
  (1 <= periods)%Z -> (Z.to_nat periods <= n < length data)%nat ->
  moving_average data periods "simple" = Ok mavg ->
  nth_error mavg n
  = Some (np_sum (map (fun j => nth (n - j) data 0) (seq 0 (Z.to_nat periods)))
          / IZR periods).
Proof.
  intros Hp Hn Hrun.
  destruct (moving_average_bootstrap data periods "simple")
    as [mavg' [v [Hrun' [_ [_ [_ Hkeep]]]]]]; [lia|].
  rewrite Hrun in Hrun'. injection Hrun' as <-.
  rewrite Hkeep by lia.
  unfold ma_kernel, np_ones. cbn [String.eqb Ascii.eqb Bool.eqb].
  destruct (Z.ltb_spec periods 0); [lia|].
  rewrite nth_error_map, nth_error_seq.
  destruct (Nat.ltb_spec n (length data)); [|lia].
  cbn [option_map Nat.add]. f_equal. apply simple_window_mean; lia.
Qed.
End ExactWindows.

(** * The properties of the specification *)

Section MovingAverageProperties.
Context {A : Type} `{Numeric A} `{Exponential A}.

(** C4. With both windows inside the data, [moving_average_convergence]
    returns the triple of the slow exponential average, the fast one and
    their difference; the three are as long as the prices, and at every
    index the divergence is the fast value minus the slow value. *)
Theorem moving_average_convergence_triple (data : list A) (nslow nfast : Z) :
  (1 <= nslow < Z.of_nat (length data))%Z ->
  (1 <= nfast < Z.of_nat (length data))%Z ->
  exists emaslow emafast macd,
    moving_average data nslow "exponential" = Ok emaslow /\
    moving_average data nfast "exponential" = Ok emafast /\
    moving_average_convergence data nslow nfast = Ok (emaslow, emafast, macd) /\
    length emaslow = length data /\
    length emafast = length data /\
    length macd = length data /\
    (forall i, i < length data ->
       exists s f, nth_error emaslow i = Some s /\
                   nth_error emafast i = Some f /\
                   nth_error macd i = Some (sub f s)).
Proof.
  intros Hslow Hfast.
  destruct (moving_average_bootstrap data nslow "exponential" Hslow)
    as [emaslow [vs [Hrs [Hls _]]]].
  destruct (moving_average_bootstrap data nfast "exponential" Hfast)
    as [emafast [vf [Hrf [Hlf _]]]].
  exists emaslow, emafast, (map2 sub emafast emaslow).
  split; [exact Hrs|]. split; [exact Hrf|].
  split; [unfold moving_average_convergence; rewrite Hrs, Hrf; reflexivity|].
  split; [exact Hls|]. split; [exact Hlf|].
  split; [rewrite length_map2; lia|].
  intros i Hi.
  destruct (nth_error emaslow i) as [s|] eqn:Es;
    [|apply nth_error_None in Es; lia].
  destruct (nth_error emafast i) as [f|] eqn:Ef;
    [|apply nth_error_None in Ef; lia].
  exists s, f. split; [reflexivity|]. split; [reflexivity|].
  apply nth_error_map2; assumption.
Qed.
End MovingAverageProperties.

Section SimpleFill.
Local Open Scope R_scope.

(** C1, as the code has it. For every price series and every [periods] with
    [1 <= periods < len(P)], the simple moving average returns a series as
    long as the input whose places [0 .. periods-1] all hold the value at
    place [periods], on every carrier. In exact arithmetic that value is
    the mean of [P[1] .. P[periods]], the window that ends at place
    [periods] and the second that is full; the mean of the first full
    window, [P[0] .. P[periods-1]], sits at place [periods - 1] of the
    convolution and is overwritten. *)
Theorem moving_average_simple_fill :
  (forall (A : Type) `{Numeric A} `{Exponential A}
          (data : list A) (periods : Z),
     (1 <= periods < Z.of_nat (length data))%Z ->
     exists mavg v,
       moving_average data periods "simple" = Ok mavg /\
       length mavg = length data /\
       nth_error mavg (Z.to_nat periods) = Some v /\
       (forall i, (i < Z.to_nat periods)%nat -> nth_error mavg i = Some v)) /\
  (forall (data : list R) (periods : Z),
     (1 <= periods < Z.of_nat (length data))%Z ->
     exists mavg,
       moving_average data periods "simple" = Ok mavg /\
       length mavg = length data /\
       (forall i, (i <= Z.to_nat periods)%nat ->
          nth_error mavg i
          = Some (fold_right Rplus 0 (firstn (Z.to_nat periods) (skipn 1 data))
                  / IZR periods))).
Proof.
  split.
  - intros A NA EA data periods Hper.
    destruct (moving_average_bootstrap data periods "simple" Hper)
      as [mavg [v [Hrun [Hlen [Hat [Hfill _]]]]]].
    exists mavg, v. repeat split; assumption.
  - intros data periods Hper.
    destruct (moving_average_bootstrap data periods "simple" Hper)
      as [mavg [v [Hrun [Hlen [Hat [Hfill _]]]]]].
    exists mavg. split; [exact Hrun|]. split; [exact Hlen|].
    assert (Hv : v = fold_right Rplus 0
                       (firstn (Z.to_nat periods) (skipn 1 data))
                     / IZR periods).
    { pose proof (simple_sample data mavg periods (Z.to_nat periods)
                    ltac:(lia) ltac:(lia) Hrun) as Hs.
      assert (Hv : v = np_sum (map (fun j => nth (Z.to_nat periods - j) data 0)
                                   (seq 0 (Z.to_nat periods))) / IZR periods)
        by congruence.
      rewrite Hv. f_equal.
      rewrite <- np_sum_plain, <- (map_nth_run data 0 1) by lia.
      rewrite (np_sum_reversed (fun m => nth m data 0) (Z.to_nat periods) 1).
      f_equal. apply map_ext_in.
      intros j Hj. apply in_seq in Hj. f_equal. lia. }
    intros i Hi. rewrite <- Hv.
    destruct (Nat.eq_dec i (Z.to_nat periods)) as [->|Hne];
      [exact Hat|apply Hfill; lia].
Qed.
End SimpleFill.

(** C1 as stated fails twice. When the window is as long as the series
    there is no place [periods] to fill from and the call raises. And the
    fill is not the mean of the first full window: on 1, 2, 3 with a window
    of two the first full window gives [(1 + 2) / 2] and the series is
    filled with [(2 + 3) / 2]. *)
Lemma moving_average_fill_counterexamples :
  ((1 <= 1 <= Z.of_nat (length [1%R]))%Z /\
   moving_average [1%R] 1 "simple" = Raise IndexError) /\
  ((1 <= 2 <= Z.of_nat (length [1; 2; 3]%R))%Z /\
   moving_average [1; 2; 3]%R 2 "simple" = Ok [5 / 2; 5 / 2; 5 / 2]%R /\
   (fold_right Rplus 0 (firstn 2 [1; 2; 3]) / 2 = 3 / 2)%R).
Proof.
  split; [split; [simpl; lia|]|split; [simpl; lia|split]].
  - apply moving_average_short; [discriminate|lia|simpl; lia].
  - destruct (moving_average_bootstrap [1; 2; 3]%R 2 "simple")
      as [mavg [v [Hrun [Hlen [Hat [Hfill _]]]]]]; [simpl; lia|].
    rewrite Hrun. f_equal.
    pose proof (simple_sample [1; 2; 3]%R mavg 2 2 ltac:(lia)
                  ltac:(simpl; lia) Hrun) as Hs.
    change (Z.to_nat 2) with 2%nat in Hs. cbn [seq map] in Hs.
    rewrite !np_sum_cons_R, np_sum_nil_R in Hs. cbn [Nat.sub nth] in Hs.
    replace ((3 + (2 + 0)) / 2)%R with (5 / 2)%R in Hs by field.
    change (Z.to_nat 2) with 2%nat in Hat, Hfill.
    assert (Hv : v = (5 / 2)%R) by congruence. subst v.
    pose proof (Hfill 0%nat ltac:(lia)) as H0.
    pose proof (Hfill 1%nat ltac:(lia)) as H1.
    destruct mavg as [|a [|b [|c [|x mavg]]]]; cbn in Hlen; try discriminate.
    cbn [nth_error] in H0, H1, Hs. congruence.
  - cbn [firstn fold_right]. field.
Qed.

Lemma moving_average_simple_fill_witness :
  (exists mavg v,
     moving_average [1; 2; 4]%R 2 "simple" = Ok mavg /\
     length mavg = 3%nat /\
     nth_error mavg 2 = Some v /\
     (forall i, (i < 2)%nat -> nth_error mavg i = Some v)) /\
  (exists mavg,
     moving_average [1; 2; 3]%R 2 "simple" = Ok mavg /\
     length mavg = 3%nat /\
     (forall i, (i <= 2)%nat ->
        nth_error mavg i
        = Some (fold_right Rplus 0 (firstn 2 (skipn 1 [1; 2; 3])) / IZR 2)%R)).
Proof.
  destruct moving_average_simple_fill as [Hany Hexact]. split.
  - apply (Hany R _ _ [1; 2; 4]%R 2%Z). simpl. lia.
  - apply (Hexact [1; 2; 3]%R 2%Z). simpl. lia.
Defined.

Lemma moving_average_convergence_triple_witness :
  exists emaslow emafast macd,
    moving_average [1; 2; 4; 8]%R 3 "exponential" = Ok emaslow /\
    moving_average [1; 2; 4; 8]%R 2 "exponential" = Ok emafast /\
    moving_average_convergence [1; 2; 4; 8]%R 3 2 = Ok (emaslow, emafast, macd) /\
    length emaslow = 4 /\
    length emafast = 4 /\
    length macd = 4 /\
    (forall i, i < 4 ->
       exists s f, nth_error emaslow i = Some s /\
                   nth_error emafast i = Some f /\
                   nth_error macd i = Some (f - s)%R).
Proof.
  exact (moving_average_convergence_triple (A := R) [1; 2; 4; 8]%R 3 2
           ltac:(simpl; lia) ltac:(simpl; lia)).
Defined.

Section ReturnsProperties.
Context {A : Type} `{Numeric A}.

(** C3, as the code has it. In periodic mode the return at place [i] is
    [series[i] / series[i - period] - 1], plus one for the gross type, and
    missing for [i < period]. Without [cumulative] the output is that series
    less its first entry only, whatever the period; with [cumulative] it is
    the full-length running product, the leading missing entries kept. *)
Theorem returns_periodic_mode (now : Z) (ts : Series A)
  (gross cumulative : bool) (period : Z) (e : option Z) :
  (0 <= period)%Z ->
  let n := length (s_values ts) in
  let relative := if gross then 1%Z else 0%Z in
  let ret := periodic_return (s_values ts) (Z.to_nat period) relative in
  exists out,
    returns now ts
      (mkReturnsKw (Some (if gross then "gross" else "net")%string)
                   (Some cumulative) None e (Some period))
    = Ok (Frame out) /\
    if cumulative then
      s_index out = s_index ts /\
      length (s_values out) = n /\
      (forall i, i < n ->
         nth_error (s_values out) i
         = Some (running_product (map ret (seq 0 n)) i)) /\
      (forall i, i < n -> i < Z.to_nat period ->
         nth_error (s_values out) i = Some None)
    else
      s_index out = tl (s_index ts) /\
      length (s_values out) = n - 1 /\
      (forall i, S i < n -> nth_error (s_values out) i = Some (ret (S i))).
Proof.
  intros Hp n relative ret.
  set (kwargs := mkReturnsKw _ _ _ _ _).
  assert (Hrel : (if String.eqb (kwargs_get (kw_type kwargs) "net"%string) "net"
                  then 0%Z else 1%Z) = relative)
    by (destruct gross; reflexivity).
  destruct cumulative.
  - destruct (returns_compounded now ts kwargs) as [out Hout];
      [reflexivity|reflexivity|exact Hp|].
    cbv zeta in Hout. rewrite Hrel in Hout. exists out. exact Hout.
  - destruct (returns_plain now ts kwargs) as [out Hout];
      [reflexivity|reflexivity|exact Hp|].
    cbv zeta in Hout. rewrite Hrel in Hout. exists out. exact Hout.
Qed.
End ReturnsProperties.

(** C3 as stated fails for a period of two: one leading entry is dropped,
    not two, and the output starts with a missing value. *)
Lemma returns_drops_one_entry_only :
  returns 0 (series_of [1; 2; 4]%float)
          (mkReturnsKw None None None None (Some 2%Z))
  = Ok (Frame (mkSeries [1; 2]%Z [None; Some 3%float])).
Proof. vm_compute. reflexivity. Qed.

Lemma returns_periodic_mode_witness :
  let ts := series_of [1; 2; 4]%float in
  let ret := periodic_return (s_values ts) 2 0 in
  exists out,
    returns 0 ts (mkReturnsKw (Some "net"%string) (Some false) None None (Some 2%Z))
    = Ok (Frame out) /\
    s_index out = tl (s_index ts) /\
    length (s_values out) = 2 /\
    (forall i, S i < 3 -> nth_error (s_values out) i = Some (ret (S i))).
Proof.
  exact (returns_periodic_mode 0 (series_of [1; 2; 4]%float) false false 2 None
           ltac:(lia)).
Defined.

Section ExactReturnsProperties.
Local Open Scope R_scope.

(** C5, as the code has it. For prices that are all nonzero, the cumulative
    one-period returns of type gross recover the prices: beyond the first
    place, [P[0] * R[i] = P[i]]. *)
Theorem returns_cumulative_gross_roundtrip (now : Z) (P : list R)
  (e : option Z) (i : nat) :
  Forall (fun p => p <> 0) P ->
  (1 <= i < length P)%nat ->
  exists out r,
    returns now (series_of P)
      (mkReturnsKw (Some "gross"%string) (Some true) None e (Some 1%Z))
    = Ok (Frame out) /\
    nth_error (s_values out) i = Some (Some r) /\
    nth 0 P 0 * r = nth i P 0.
Proof.
  intros Hnz Hi.
  destruct (returns_compounded now (series_of P)
              (mkReturnsKw (Some "gross"%string) (Some true) None e (Some 1%Z)))
    as [out [Hrun [_ [_ [Hval _]]]]]; [reflexivity|reflexivity|cbn; lia|].
  cbn [kwargs_get kw_period kw_type] in Hval.
  change (if String.eqb "gross" "net" then 0%Z else 1%Z) with 1%Z in Hval.
  exists out, (nth i P 0 / nth 0 P 0). split; [exact Hrun|].
  cbn [series_of s_values] in Hval. rewrite length_map in Hval.
  assert (H0 : nth 0 P 0 <> 0).
  { rewrite Forall_forall in Hnz. apply Hnz. apply nth_In. lia. }
  split; [|field; exact H0].
  rewrite Hval by lia. f_equal. unfold running_product.
  assert (Ln : (S i <= length (seq 0 (length P)))%nat)
    by (rewrite length_seq; lia).
  rewrite (nth_error_nth (map (periodic_return (map norm P) (Z.to_nat 1) 1)
                              (seq 0 (length P))) i None
             (x := Some (nth i P 0 / nth (i - 1) P 0 - 1 + 1))).
  - rewrite firstn_map, firstn_seq.
    replace (Nat.min (S i) (length P)) with (S i) by lia.
    change (Z.to_nat 1) with 1%nat.
    change (fold_left mul ?l one) with (fold_left Rmult l 1).
    rewrite gross_product_telescopes by (assumption || lia). reflexivity.
  - rewrite nth_error_map, nth_error_seq.
    destruct (Nat.ltb_spec i (length P)); [|lia].
    cbn [option_map Nat.add]. f_equal.
    change (Z.to_nat 1) with 1%nat. apply periodic_return_at. lia.
Qed.
End ExactReturnsProperties.

(** C5 as stated fails for the default type, net: the running product of
    the net returns of 100, 110, 121 is 0.1 at place 1, and 100 * 0.1
    misses the price 110 by 100. *)
Lemma returns_cumulative_net_no_roundtrip :
  exists out r,
    returns 0 (series_of [100; 110; 121]%R)
      (mkReturnsKw None (Some true) None None (Some 1%Z))
    = Ok (Frame out) /\
    nth_error (s_values out) 1 = Some (Some r) /\
    (nth 1 [100; 110; 121] 0 - nth 0 [100; 110; 121] 0 * r = 100)%R.
Proof.
  eexists. eexists. split; [reflexivity|]. split; [reflexivity|].
  unfold_R. simpl. lra.
Qed.

Lemma returns_cumulative_gross_roundtrip_witness :
  exists out r,
    returns 0 (series_of [100; 110; 121]%R)
      (mkReturnsKw (Some "gross"%string) (Some true) None None (Some 1%Z))
    = Ok (Frame out) /\
    nth_error (s_values out) 2 = Some (Some r) /\
    (100 * r = 121)%R.
Proof.
  refine (returns_cumulative_gross_roundtrip 0 [100; 110; 121]%R None 2 _ _).
  - repeat constructor; lra.
  - simpl. lia.
Defined.

Section AverageReturnsProperties.
Local Open Scope R_scope.

(** C10. With type gross [average_returns] takes the offset -1, so that each
    factor [1 + ts[idx] - 1] is the raw value [ts[idx]]: the result is the
    product of the values at the places that are multiples of the stride,
    less one; with type net each factor is [1 + ts[idx]]. [returns], for its
    part, makes a gross return by adding one to the net return. *)
Theorem average_returns_factors (P : list R) (period : Z) (gross : bool) :
  period <> 0%Z ->
  average_returns (series_of P)
    (mkAverageKw (Some (if gross then "gross" else "net")%string) (Some period))
  = Ok (Some (fold_right Rmult 1
                (map (fun x => if gross then x else 1 + x)
                     (stride_values P period)) - 1))
  /\
  forall (now q : Z) (e : option Z) (j : nat),
    (0 <= q)%Z -> (Z.to_nat q <= S j < length P)%nat ->
    nth (S j - Z.to_nat q) P 0 <> 0 ->
    exists out,
      returns now (series_of P)
        (mkReturnsKw (Some "gross"%string) (Some false) None e (Some q))
      = Ok (Frame out) /\
      nth_error (s_values out) j
      = Some (Some (nth (S j) P 0 / nth (S j - Z.to_nat q) P 0 - 1 + 1)).
Proof.
  intros Hp. split.
  - unfold average_returns.
    cbn [avg_type avg_period kwargs_get series_of s_index s_values].
    rewrite length_py_range, Z.sub_0_r, Nat2Z.id.
    set (relative := if String.eqb (if gross then "gross" else "net") "net"
                     then 0%Z else (-1)%Z).
    assert (Hrange : py_range 0 (Z.of_nat (length P))
                     = map Z.of_nat (seq (length (@nil R)) (length P))).
    { unfold py_range. rewrite Z.sub_0_r, Nat2Z.id. apply map_ext.
      intros k. lia. }
    rewrite Hrange.
    pose proof (average_loop_product relative period P [] 1 Hp) as Hloop.
    cbn [app] in Hloop. change (Some one) with (Some 1). rewrite Hloop.
    cbn [bind]. f_equal.
    change (lift2 sub (Some ?a) (Some 1)) with (Some (a - 1)).
    f_equal. f_equal. rewrite Rmult_1_l. f_equal. unfold stride_values.
    apply map_ext. intros x. unfold relative. destruct gross; cbn; ring.
  - intros now q e j Hq Hj _.
    destruct (returns_plain now (series_of P)
                (mkReturnsKw (Some "gross"%string) (Some false) None e (Some q)))
      as [out [Hrun [_ [_ Hval]]]]; [reflexivity|reflexivity|exact Hq|].
    cbn [kwargs_get kw_period kw_type] in Hval.
    change (if String.eqb "gross" "net" then 0%Z else 1%Z) with 1%Z in Hval.
    exists out. split; [exact Hrun|].
    cbn [series_of s_values] in Hval. rewrite length_map in Hval.
    rewrite Hval by lia. f_equal. apply periodic_return_at. lia.
Qed.
End AverageReturnsProperties.

Lemma average_returns_factors_witness :
  average_returns (series_of [2; 3; 4; 5]%R)
    (mkAverageKw (Some "gross"%string) (Some 2%Z))
  = Ok (Some (fold_right Rmult 1
                (map (fun x => x) (stride_values [2; 3; 4; 5] 2)) - 1)%R)
  /\
  forall (now q : Z) (e : option Z) (j : nat),
    (0 <= q)%Z -> (Z.to_nat q <= S j < 4)%nat ->
    (nth (S j - Z.to_nat q) [2; 3; 4; 5] 0 <> 0)%R ->
    exists out,
      returns now (series_of [2; 3; 4; 5]%R)
        (mkReturnsKw (Some "gross"%string) (Some false) None e (Some q))
      = Ok (Frame out) /\
      nth_error (s_values out) j
      = Some (Some (nth (S j) [2; 3; 4; 5] 0 /
                    nth (S j - Z.to_nat q) [2; 3; 4; 5] 0 - 1 + 1)%R).
Proof.
  exact (average_returns_factors [2; 3; 4; 5]%R 2 true ltac:(lia)).
Defined.

Example average_returns_gross_run :
  average_returns (series_of [2; 3; 4; 5]%float)
    (mkAverageKw (Some "gross"%string) (Some 2%Z))
  = Ok (Some 7%float).
Proof. vm_compute. reflexivity. Qed.

Section KernelProperties.
Local Open Scope R_scope.

End KernelProperties.



Section OscillatorProperties.
Local Open Scope R_scope.

End OscillatorProperties.


(** C2, at prices 1, 2, 3, 2, 1 with a window of two. The differences are
    1, 1, -1, -1. The code seeds over the first three of them
    ([deltas[:periods + 1]]): [up = 2/2 = 1], [down = 1/2]. Over the first
    two, as the specification has it, [down] is zero (a negative zero in
    IEEE arithmetic). *)
Theorem rs_seed_sums_one_difference_more :
  let deltas := np_diff [1; 2; 3; 2; 1]%float in
  deltas = [1; 1; -1; -1]%float /\
  rs_seed deltas 2 = (1, 0.5)%float /\
  rs_seed_spec deltas 2 = (1%float, PrimFloat.neg_zero).
Proof. vm_compute. repeat split; reflexivity. Qed.

(** C7, as the code has it. When the returns have a standard deviation of
    zero, [qstk_get_sharpe_ratio] raises nothing: it returns the IEEE
    quotient by zero, a NaN when the numerator
    [f_mean * 252 - risk_free] is a NaN or a zero and an infinity for every
    other numerator. *)
Theorem sharpe_ratio_zero_deviation (rets : list float) (risk_free : float) :
  PrimFloat.eqb (np_std rets) PrimFloat.zero = true ->
  let numerator := (np_mean rets * float_of_Z 252 - risk_free)%float in
  let v := qstk_get_sharpe_ratio rets risk_free in
  PrimFloat.is_nan v
  = PrimFloat.is_nan numerator || PrimFloat.eqb numerator PrimFloat.zero /\
  PrimFloat.is_infinity v
  = negb (PrimFloat.is_nan numerator || PrimFloat.eqb numerator PrimFloat.zero).
Proof.
  intros Hdev numerator v. destruct (eqb_zero_inv _ Hdev) as [s Hs].
  unfold v, numerator, qstk_get_sharpe_ratio. cbn zeta.
  apply (div_by_zero _ _ (xorb s false)).
  eapply mul_zero_finite; [exact Hs|]. vm_compute. reflexivity.
Qed.

(** C7 as stated fails on its own scenario: 252 returns of 0.01 (the float
    [0x1.47ae147ae147bp-7]) have a mean of exactly 0.01 and a deviation of
    exactly zero, and the answer is plus infinity, handed back as an
    ordinary value. *)
Lemma sharpe_ratio_silent_infinity :
  let rets := repeat 0x1.47ae147ae147bp-7%float 252 in
  np_mean rets = 0x1.47ae147ae147bp-7%float /\
  np_std rets = 0%float /\
  qstk_get_sharpe_ratio rets 0%float = infinity.
Proof. vm_compute. repeat split; reflexivity. Qed.

Lemma sharpe_ratio_zero_deviation_witness :
  let rets := repeat 0x1.47ae147ae147bp-7%float 252 in
  let numerator := (np_mean rets * float_of_Z 252 - 0)%float in
  let v := qstk_get_sharpe_ratio rets 0%float in
  PrimFloat.is_nan v
  = PrimFloat.is_nan numerator || PrimFloat.eqb numerator PrimFloat.zero /\
  PrimFloat.is_infinity v
  = negb (PrimFloat.is_nan numerator || PrimFloat.eqb numerator PrimFloat.zero).
Proof.
  refine (sharpe_ratio_zero_deviation
            (repeat 0x1.47ae147ae147bp-7%float 252) 0%float _).
  vm_compute. reflexivity.
Defined.


Section ParameterChecks.
Context {A : Type} `{Numeric A} `{Exponential A}.

(** C8, as the code has it. A window that is not positive is refused by
    [moving_average] (numpy raises [ValueError]) and a stride of zero by
    [average_returns] on a series that is not empty (the modulo raises
    [ZeroDivisionError]). Nothing else checks the argument:
    [average_returns] accepts a negative stride and answers on a series
    whose labels are its places [0 .. n-1] (the integers it looks up),
    [returns] in periodic mode answers for every period, and
    [relative_strength] answers for a window of zero or less as long as its
    indices stay within the prices. *)
Theorem nonpositive_period_handling :
  (forall (data : list A) (periods : Z) (type : string),
     (periods <= 0)%Z ->
     moving_average data periods type = Raise ValueError) /\
  (forall (ts : Series A) (kwargs : average_kwargs),
     avg_period kwargs = Some 0%Z -> s_index ts <> [] ->
     average_returns ts kwargs = Raise ZeroDivisionError) /\
  (forall (ts : Series A) (kwargs : average_kwargs) (period : Z),
     avg_period kwargs = Some period -> (period < 0)%Z ->
     s_index ts = py_range 0 (Z.of_nat (length (s_values ts))) ->
     exists r, average_returns ts kwargs = Ok r) /\
  (forall (now : Z) (ts : Series A) (kwargs : returns_kwargs),
     kw_start kwargs = None ->
     exists out, returns now ts kwargs = Ok (Frame out)) /\
  (forall (prices : list A) (periods : Z),
     (2 - Z.of_nat (length prices) <= periods <= 0)%Z ->
     exists rsi,
       relative_strength prices periods = Ok rsi /\
       length rsi = length prices).
Proof.
  split; [|split; [|split; [|split]]].
  - intros data periods type Hp. apply moving_average_nonpositive. exact Hp.
  - intros ts kwargs Hp Hne. unfold average_returns. rewrite Hp.
    destruct (s_index ts) as [|t index]; [contradiction|].
    unfold py_range. cbn [length]. rewrite Z.sub_0_r, Nat2Z.id.
    cbn [seq map]. rewrite average_loop_zero_stride. reflexivity.
  - intros ts kwargs period Hk Hp Hidx. unfold average_returns. rewrite Hk.
    assert (Hlen : length (s_index ts) = length (s_values ts))
      by (rewrite Hidx, length_py_range; lia).
    destruct (average_loop_total ts
                (if String.eqb (kwargs_get (avg_type kwargs) "net"%string) "net"
                 then 0%Z else (-1)%Z) period
                (py_range 0 (Z.of_nat (length (s_index ts))))) with (avg_ret := Some one)
      as [r Hr]; [lia|exact Hlen| |].
    + intros i Hi. rewrite Hlen in Hi. rewrite Hidx. exact Hi.
    + rewrite Hr. cbn [bind]. eexists. reflexivity.
  - intros now ts kwargs Hstart. rewrite returns_periodic_frame by exact Hstart.
    eexists. reflexivity.
  - intros prices periods Hp. unfold relative_strength. cbn zeta.
    set (st := rs_seed (np_diff prices) periods).
    set (rsi0 := setslice _ periods (rs_value st)).
    assert (L0 : length rsi0 = length prices)
      by (unfold rsi0; rewrite length_setslice, repeat_length; reflexivity).
    destruct (rs_loop_total (np_diff prices) periods
                (py_range periods (Z.of_nat (length prices))) st rsi0)
      as [rsi [Hrun L]].
    + intros i Hi. apply In_py_range in Hi.
      split; apply py_index_in_reach; rewrite ?L0, ?length_np_diff; lia.
    + exists rsi. split; [exact Hrun|lia].
Qed.
End ParameterChecks.

(** C8 as stated fails: [returns] takes a period of zero and answers. *)
Lemma returns_accepts_zero_period :
  returns 0 (series_of [1; 2; 4]%float)
          (mkReturnsKw None None None None (Some 0%Z))
  = Ok (Frame (mkSeries [1; 2]%Z [Some 0; Some 0]%float)).
Proof. vm_compute. reflexivity. Qed.

Example relative_strength_zero_period_run :
  relative_strength [1; 2; 4]%float 0 = Ok [nan; nan; nan]%float.
Proof. vm_compute. reflexivity. Qed.

Lemma nonpositive_period_handling_witness :
  moving_average [1; 2; 4]%R 0 "simple" = Raise ValueError /\
  average_returns (series_of [1; 2; 4]%R) (mkAverageKw None (Some 0%Z))
  = Raise ZeroDivisionError /\
  (exists r, average_returns (series_of [1; 2; 4]%R)
               (mkAverageKw None (Some (-2)%Z)) = Ok r) /\
  (exists out, returns 0 (series_of [1; 2; 4]%R)
                 (mkReturnsKw None None None None (Some 0%Z)) = Ok (Frame out)) /\
  (exists rsi, relative_strength [1; 2; 4]%R 0 = Ok rsi /\ length rsi = 3).
Proof.
  destruct (nonpositive_period_handling (A := R)) as [Hma [Hz [Hneg [Hret Hrs]]]].
  split; [apply Hma; lia|].
  split; [apply Hz; [reflexivity|discriminate]|].
  split; [apply (Hneg _ _ (-2)%Z); [reflexivity|lia|reflexivity]|].
  split; [apply Hret; reflexivity|].
  apply (Hrs [1; 2; 4]%R 0%Z). simpl. lia.
Defined.

(** * Runs on IEEE numbers *)

(** Rising prices never feed [down]: the ratio is infinite and the indicator
    sits at 100. *)
Example relative_strength_rising_run :
  relative_strength [1; 2; 3; 4]%float 2 = Ok [100; 100; 100; 100]%float.
Proof. vm_compute. reflexivity. Qed.

(** Flat prices are the degenerate run: the ratio is 0/0. *)
Example relative_strength_flat_run :
  relative_strength [5; 5; 5; 5]%float 2 = Ok [nan; nan; nan; nan]%float.
Proof. vm_compute. reflexivity. Qed.

Section FloatMovingAverage.
(** The C library's exponential, whichever it is. *)
Variable libm_exp : float -> float.
#[local] Instance float_Exponential : Exponential float := libm_exp.

Example moving_average_simple_run :
  moving_average [1; 2; 3; 4]%float 2 "simple"
  = Ok [2.5; 2.5; 2.5; 3.5]%float.
Proof. vm_compute. reflexivity. Qed.

Example moving_average_window_too_long_run :
  moving_average [1; 2; 3; 4]%float 4 "simple" = Raise IndexError.
Proof. vm_compute. reflexivity. Qed.
End FloatMovingAverage.

(** * Further properties of the module *)

(** ** Windows and kernels *)

Section MovingAverageEdges.
Context {A : Type} `{Numeric A} `{Exponential A}.

(** X1. With no data [moving_average] raises [ValueError], whatever the
    window and the kind: numpy refuses a negative window, and to convolve
    an empty array otherwise. *)
Theorem moving_average_no_data (periods : Z) (type : string) :
  moving_average (@nil A) periods type = Raise ValueError.
Proof.
  unfold moving_average.
  destruct (Z.ltb_spec periods 0) as [Hneg|Hpos].
  - rewrite ma_kernel_negative by exact Hneg. reflexivity.
  - destruct (ma_kernel_total periods type Hpos) as [w Hw].
    rewrite Hw. reflexivity.
Qed.

(** X2. On data that is not empty, a window as long as the data or longer
    raises [IndexError], for either kind: the convolution is cut to the
    length of the data and has no place [periods]. *)
Theorem moving_average_window_too_long (data : list A) (periods : Z)
  (type : string) :
  data <> [] -> (Z.of_nat (length data) <= periods)%Z ->
  moving_average data periods type = Raise IndexError.
Proof.
  intros Hdata Hlen. apply moving_average_short; [exact Hdata| |exact Hlen].
  destruct data; [contradiction|]. cbn [length] in Hlen. lia.
Qed.

(** X7. [moving_average_convergence] raises [IndexError] as soon as one of
    its two windows is as long as the prices: with the default windows
    (26, 12) it needs 27 prices at least. *)
Theorem moving_average_convergence_short (data : list A) (nslow nfast : Z) :
  data <> [] -> (1 <= nslow)%Z -> (1 <= nfast)%Z ->
  (Z.of_nat (length data) <= nslow)%Z \/ (Z.of_nat (length data) <= nfast)%Z ->
  moving_average_convergence data nslow nfast = Raise IndexError.
Proof.
  intros Hdata Hslow Hfast Hshort. unfold moving_average_convergence.
  destruct (Z.le_gt_cases (Z.of_nat (length data)) nslow) as [Hs|Hs].
  - rewrite moving_average_short by assumption. reflexivity.
  - destruct (moving_average_bootstrap data nslow "exponential")
      as [emaslow [v [Hrun _]]]; [lia|].
    rewrite Hrun. cbn [bind].
    rewrite moving_average_short; [reflexivity|exact Hdata|exact Hfast|lia].
Qed.
End MovingAverageEdges.

Section ExactMovingAverage.
Local Open Scope R_scope.

(** X5. For a window of one place or more the normalised kernel of either
    kind has one positive weight per place and the weights sum to one. *)
Theorem kernel_weights_sum_to_one (periods : Z) (type : string) :
  (1 <= periods)%Z ->
  exists kern,
    ma_kernel periods type = Ok kern /\
    length (normalise kern) = Z.to_nat periods /\
    Forall (fun x => 0 < x) (normalise kern) /\
    np_sum (normalise kern) = 1.
Proof.
  intros Hp. destruct (ma_kernel_positive periods type Hp) as [kern [Hk [Lk Hpos]]].
  assert (Hs : 0 < np_sum kern).
  { apply np_sum_positive; [|exact Hpos].
    destruct kern; [simpl in Lk; lia|discriminate]. }
  exists kern. split; [exact Hk|]. split; [rewrite length_normalise; exact Lk|].
  split.
  - unfold normalise. apply Forall_map. rewrite Forall_forall in *.
    intros x Hx. unfold_R. apply Rdiv_lt_0_compat; [apply Hpos; exact Hx|exact Hs].
  - apply normalise_total. lra.
Qed.

(** X3. From place [periods] on, the simple moving average is the
    arithmetic mean of the last [periods] samples. *)
Theorem moving_average_simple_mean (data : list R) (periods : Z) (n : nat) :
  (1 <= periods)%Z -> (Z.to_nat periods <= n < length data)%nat ->
  exists mavg,
    moving_average data periods "simple" = Ok mavg /\
    nth_error mavg n
    = Some (np_sum (map (fun j => nth (n - j) data 0) (seq 0 (Z.to_nat periods)))
            / IZR periods).
Proof.
  intros Hp Hn.
  destruct (moving_average_bootstrap data periods "simple")
    as [mavg [v [Hrun _]]]; [lia|].
  exists mavg. split; [exact Hrun|].
  apply simple_sample; [exact Hp|exact Hn|exact Hrun].
Qed.

Lemma constant_everywhere (c : R) (k : nat) (periods : Z)
  (mavg : list R) (v : R) (kern : list R) :
  (1 <= periods < Z.of_nat k)%Z ->
  length (normalise kern) = Z.to_nat periods ->
  np_sum (normalise kern) = 1 ->
  length mavg = k ->
  nth_error mavg (Z.to_nat periods) = Some v ->
  (forall i, (i < Z.to_nat periods)%nat -> nth_error mavg i = Some v) ->
  (forall i, (Z.to_nat periods <= i)%nat ->
     nth_error mavg i
     = nth_error (map (conv_at (repeat c k) (normalise kern)) (seq 0 k)) i) ->
  mavg = repeat c k.
Proof.
  intros Hp Lw Hs Hlen Hat Hfill Hkeep.
  assert (Hfull : forall i, (Z.to_nat periods <= i < k)%nat ->
                    nth_error mavg i = Some c).
  { intros i Hi. rewrite Hkeep by lia. rewrite nth_error_map, nth_error_seq.
    destruct (Nat.ltb_spec i k); [|lia]. cbn [option_map Nat.add]. f_equal.
    apply conv_at_constant; [lia|lia|exact Hs]. }
  assert (Hv : v = c).
  { rewrite Hfull in Hat by lia. congruence. }
  apply nth_error_ext. intros i.
  destruct (Nat.lt_ge_cases i k) as [Hi|Hi].
  - rewrite nth_error_repeat by exact Hi.
    destruct (Nat.lt_ge_cases i (Z.to_nat periods)) as [Hlow|Hhigh].
    + rewrite Hfill by exact Hlow. congruence.
    + apply Hfull. lia.
  - rewrite (proj2 (nth_error_None _ _)) by lia.
    symmetry. apply nth_error_None. rewrite repeat_length. exact Hi.
Qed.

(** X4. The moving average of a constant series, simple or exponential, is
    the series itself, for every window inside it. *)
Theorem moving_average_constant (c : R) (k : nat) (periods : Z) (type : string) :
  (1 <= periods < Z.of_nat k)%Z ->
  moving_average (repeat c k) periods type = Ok (repeat c k).
Proof.
  intros Hp.
  destruct (ma_kernel_unit_sum periods type) as [kern [Hk [Lw [_ Hs]]]];
    [lia|].
  destruct (moving_average_bootstrap (repeat c k) periods type)
    as [mavg [v [Hrun [Hlen [Hat [Hfill Hkeep]]]]]];
    [rewrite repeat_length; exact Hp|].
  rewrite Hrun. f_equal. rewrite repeat_length in *. rewrite Hk in Hkeep.
  apply (constant_everywhere c k periods mavg v kern); assumption.
Qed.

(** X6. On a constant series with both windows inside it, the two averages
    of [moving_average_convergence] are the series itself and the
    divergence is zero everywhere. *)
Theorem moving_average_convergence_constant (c : R) (k : nat) (nslow nfast : Z) :
  (1 <= nslow < Z.of_nat k)%Z -> (1 <= nfast < Z.of_nat k)%Z ->
  moving_average_convergence (repeat c k) nslow nfast
  = Ok (repeat c k, repeat c k, repeat 0 k).
Proof.
  intros Hslow Hfast. unfold moving_average_convergence.
  assert (Hma : forall periods, (1 <= periods < Z.of_nat k)%Z ->
            moving_average (repeat c k) periods "exponential" = Ok (repeat c k)).
  { intros periods Hp.
    destruct (ma_kernel_unit_sum periods "exponential") as [kern [Hk [Lw [_ Hs]]]];
      [lia|].
    destruct (moving_average_bootstrap (repeat c k) periods "exponential")
      as [mavg [v [Hrun [Hlen [Hat [Hfill Hkeep]]]]]];
      [rewrite repeat_length; exact Hp|].
    rewrite Hrun. f_equal. rewrite repeat_length in *. rewrite Hk in Hkeep.
    apply (constant_everywhere c k periods mavg v kern); assumption. }
  rewrite !Hma by assumption. cbn [bind]. do 2 f_equal.
  clear. induction k as [|k IH]; cbn [repeat map2]; [reflexivity|].
  rewrite IH. f_equal. unfold_R. ring.
Qed.
End ExactMovingAverage.

(** ** The oscillator, place by place *)

Lemma py_index_out_of_reach (n : nat) (i : Z) :
  (i < - Z.of_nat n)%Z -> py_index n i = None.
Proof.
  intros Hi. unfold py_index.
  destruct (Z.leb_spec 0 i); [lia|]. cbn [andb].
  destruct (Z.ltb_spec i 0); [|lia].
  destruct (Z.leb_spec (- Z.of_nat n) i); [lia|reflexivity].
Qed.

Section Places.
Context {T : Type}.

Lemma nth_error_setitem (l l' : list T) (i : nat) (v : T) (k : nat) :
  setitem l (Z.of_nat i) v = Ok l' ->
  nth_error l' k = if (k =? i)%nat then Some v else nth_error l k.
Proof.
  unfold setitem.
  destruct (py_index (length l) (Z.of_nat i)) as [j|] eqn:E; [|discriminate].
  intros Hl'. pose proof (py_index_bound _ _ _ E) as Hj.
  assert (Ej : j = i).
  { destruct (Z.ltb_spec (Z.of_nat i) (Z.of_nat (length l))) as [Hlt|Hge].
    - rewrite py_index_nonneg in E by lia. injection E as <-. lia.
    - rewrite py_index_beyond in E by lia. discriminate. }
  subst j.
  assert (El : l' = firstn i l ++ v :: skipn (S i) l)
    by (injection Hl' as <-; reflexivity).
  rewrite El. rewrite nth_error_app, length_firstn.
  replace (Nat.min i (length l)) with i by lia.
  destruct (Nat.ltb_spec k i) as [Hlt|Hge].
  - destruct (Nat.eqb_spec k i); [lia|].
    rewrite nth_error_firstn. destruct (Nat.ltb_spec k i); [reflexivity|lia].
  - destruct (Nat.eqb_spec k i) as [->|Hne].
    + rewrite Nat.sub_diag. reflexivity.
    + destruct (k - i)%nat as [|d] eqn:Ed; [lia|].
      cbn [nth_error]. rewrite nth_error_skipn. f_equal. lia.
Qed.
End Places.

Section OscillatorLoop.
Context {A : Type} `{Numeric A}.

Lemma getitem_in {T : Type} (l : list T) (i : Z) (v : T) :
  getitem l i = Ok v -> In v l.
Proof.
  unfold getitem. destruct (py_index (length l) i) as [k|]; [|discriminate].
  destruct (nth_error l k) as [x|] eqn:E; [|discriminate].
  intros [= <-]. eapply nth_error_In. exact E.
Qed.

(** A property of the state that every turn keeps, and that decides a
    property of the value written, holds of every value of the result. *)
Lemma rs_loop_forall (deltas : list A) (periods : Z)
  (Inv : A * A -> Prop) (Q : A -> Prop) :
  (forall st d, In d deltas -> Inv st -> Inv (rs_update periods st d)) ->
  (forall st, Inv st -> Q (rs_value st)) ->
  forall (idxs : list Z) (st : A * A) (rsi rsi' : list A),
    Inv st -> Forall Q rsi ->
    rs_loop deltas periods idxs st rsi = Ok rsi' ->
    Forall Q rsi'.
Proof.
  intros Hstep Hval. induction idxs as [|i idxs IH]; intros st rsi rsi' Hst Hq.
  - cbn [rs_loop]. intros [= <-]. exact Hq.
  - cbn [rs_loop]. destruct (getitem deltas (i - 1)) as [delta|e] eqn:Hget;
      [|discriminate].
    cbn [bind].
    destruct (setitem rsi i (rs_value (rs_update periods st delta)))
      as [rsi1|e] eqn:Hset; [|discriminate].
    cbn [bind]. apply IH.
    + apply Hstep; [eapply getitem_in; exact Hget|exact Hst].
    + apply Forall_forall. intros x Hx.
      destruct (In_setitem _ _ _ _ _ Hset Hx) as [->|Hin].
      * apply Hval. apply Hstep; [eapply getitem_in; exact Hget|exact Hst].
      * rewrite Forall_forall in Hq. apply Hq. exact Hin.
Qed.

(** The loop over the places [a .. a+m-1]: it leaves the other places as
    they are and writes at place [a + j] the value of the state reached
    after [j + 1] turns. *)
Lemma rs_loop_places (deltas : list A) (periods : Z) (m : nat) :
  forall (a : nat) (st : A * A) (rsi : list A),
    (1 <= a)%nat -> (a + m <= length rsi)%nat ->
    (a + m <= S (length deltas))%nat ->
    exists rsi',
      rs_loop deltas periods (map Z.of_nat (seq a m)) st rsi = Ok rsi' /\
      length rsi' = length rsi /\
      (forall k, (k < a)%nat \/ (a + m <= k)%nat ->
         nth_error rsi' k = nth_error rsi k) /\
      (forall j, (j < m)%nat ->
         nth_error rsi' (a + j)
         = Some (rs_value (fold_left (rs_update periods)
                             (firstn (S j) (skipn (a - 1) deltas)) st))).
Proof.
  induction m as [|m IH]; intros a st rsi Ha Hr Hd.
  - exists rsi. split; [reflexivity|]. split; [reflexivity|].
    split; [reflexivity|]. intros j Hj. lia.
  - cbn [seq map rs_loop].
    destruct (getitem_nonneg deltas (Z.of_nat a - 1)) as [delta [Hget Hnth]];
      [lia|].
    rewrite Hget. cbn [bind].
    replace (Z.to_nat (Z.of_nat a - 1)) with (a - 1)%nat in Hnth by lia.
    destruct (setitem_nonneg rsi (Z.of_nat a)
                (rs_value (rs_update periods st delta))) as [rsi1 Hset]; [lia|].
    rewrite Hset. cbn [bind].
    pose proof (length_setitem _ _ _ _ Hset) as L1.
    destruct (IH (S a) (rs_update periods st delta) rsi1)
      as [rsi' [Hrun [L' [Hout Hin]]]]; try lia.
    exists rsi'. split; [exact Hrun|]. split; [lia|].
    assert (Hskip : skipn (a - 1) deltas = delta :: skipn (S a - 1) deltas).
    { replace (S a - 1)%nat with (S (a - 1)) by lia.
      clear - Hnth. revert Hnth. generalize (a - 1)%nat as k. intros k.
      revert deltas. induction k as [|k IHk]; intros [|d deltas] Hn;
        try discriminate.
      - injection Hn as ->. reflexivity.
      - cbn [skipn]. apply IHk. exact Hn. }
    split.
    + intros k Hk. rewrite Hout by lia.
      rewrite (nth_error_setitem _ _ _ _ k Hset).
      destruct (Nat.eqb_spec k a); [lia|reflexivity].
    + intros [|j] Hj.
      * rewrite Nat.add_0_r, Hout by lia.
        rewrite (nth_error_setitem _ _ _ _ a Hset), Nat.eqb_refl.
        rewrite Hskip. reflexivity.
      * replace (a + S j)%nat with (S a + j)%nat by lia.
        rewrite Hin by lia. rewrite Hskip. reflexivity.
Qed.

(** X8. For a window of one place or more [relative_strength] returns,
    whatever the prices (none at all included), a series as long as the
    prices; it holds the seed value at the places before [periods], and at
    a place [i >= periods] the value of the state the seed reaches through
    the differences [periods-1 .. i-1], one turn of the smoothing each. *)
Theorem relative_strength_places (prices : list A) (periods : Z) :
  (1 <= periods)%Z ->
  let deltas := np_diff prices in
  let seed := rs_seed deltas periods in
  let p := Z.to_nat periods in
  exists rsi,
    relative_strength prices periods = Ok rsi /\
    length rsi = length prices /\
    (forall i, (i < p)%nat -> (i < length prices)%nat ->
       nth_error rsi i = Some (rs_value seed)) /\
    (forall i, (p <= i < length prices)%nat ->
       nth_error rsi i
       = Some (rs_value (fold_left (rs_update periods)
                           (firstn (S (i - p)) (skipn (p - 1) deltas)) seed))).
Proof.
  intros Hp deltas seed p. unfold relative_strength. cbn zeta.
  fold deltas. fold seed.
  set (rsi0 := setslice _ periods (rs_value seed)).
  assert (L0 : length rsi0 = length prices)
    by (unfold rsi0; rewrite length_setslice, repeat_length; reflexivity).
  assert (Hper : periods = Z.of_nat p) by (unfold p; lia).
  replace (py_range periods (Z.of_nat (length prices)))
    with (py_range (Z.of_nat p) (Z.of_nat (length prices)))
    by (rewrite <- Hper; reflexivity).
  rewrite py_range_from_nat.
  set (m := Z.to_nat (Z.of_nat (length prices) - Z.of_nat p)).
  destruct (Nat.le_gt_cases p (length prices)) as [Hfit|Hbig].
  - destruct (rs_loop_places deltas periods m p seed rsi0)
      as [rsi [Hrun [L [Hout Hin]]]];
      [lia|unfold m; lia|unfold m, deltas; rewrite length_np_diff; lia|].
    exists rsi. split; [exact Hrun|]. split; [lia|]. split.
    + intros i Hi Hn. rewrite Hout by lia. unfold rsi0.
      rewrite nth_error_setslice, repeat_length.
      unfold slice_stop. destruct (Z.ltb_spec periods 0); [lia|].
      destruct (Nat.ltb_spec i (Nat.min (Z.to_nat periods) (length prices)));
        [reflexivity|lia].
    + intros i Hi. replace i with (p + (i - p))%nat at 1 by lia.
      rewrite Hin by (unfold m; lia). reflexivity.
  - replace m with 0%nat by (unfold m; lia). cbn [seq map rs_loop].
    exists rsi0. split; [reflexivity|]. split; [exact L0|]. split.
    + intros i Hi Hn. unfold rsi0.
      rewrite nth_error_setslice, repeat_length.
      unfold slice_stop. destruct (Z.ltb_spec periods 0); [lia|].
      destruct (Nat.ltb_spec i (Nat.min (Z.to_nat periods) (length prices)));
        [reflexivity|lia].
    + intros i Hi. lia.
Qed.

(** X10. [relative_strength] raises [IndexError] when the window is so far
    below zero that the first turn of the loop reads a difference that does
    not exist: [periods < 2 - len(prices)] and [periods < len(prices)]. *)
Theorem relative_strength_out_of_reach (prices : list A) (periods : Z) :
  (periods < 2 - Z.of_nat (length prices))%Z ->
  (periods < Z.of_nat (length prices))%Z ->
  relative_strength prices periods = Raise IndexError.
Proof.
  intros Hlow Hrange. unfold relative_strength, py_range. cbn zeta.
  destruct (Z.to_nat (Z.of_nat (length prices) - periods)) as [|m] eqn:Em; [lia|].
  cbn [seq map rs_loop]. unfold getitem.
  rewrite py_index_out_of_reach; [reflexivity|].
  rewrite length_np_diff. lia.
Qed.
End OscillatorLoop.

Section FallingPrices.
Local Open Scope R_scope.

Lemma filter_all_negative (l : list R) :
  Forall (fun d => d < 0) l ->
  filter (fun x => leb zero x) l = [] /\ filter (fun x => ltb x zero) l = l.
Proof.
  induction 1 as [|x l Hx Hl [IH1 IH2]]; [split; reflexivity|].
  cbn [filter]. unfold_R.
  destruct (Rle_dec 0 x); [lra|]. destruct (Rlt_dec x 0); [|lra].
  split; [exact IH1|]. f_equal. exact IH2.
Qed.

Lemma np_sum_negative (l : list R) :
  l <> [] -> Forall (fun d => d < 0) l -> np_sum l < 0.
Proof.
  intros Hne Hneg. induction Hneg as [|x l Hx Hl IH]; [contradiction|].
  sum_R. unfold_R. destruct l as [|y l].
  - cbn. unfold_R. lra.
  - assert (np_sum (y :: l) < 0) by (apply IH; discriminate). lra.
Qed.

(** X9. On strictly falling prices (two at least) and a window of one place
    or more, every value of [relative_strength] is 0. *)
Theorem relative_strength_falling (prices : list R) (periods : Z) :
  (1 <= periods)%Z -> (2 <= length prices)%nat ->
  Forall (fun d => d < 0) (np_diff prices) ->
  exists rsi,
    relative_strength prices periods = Ok rsi /\
    length rsi = length prices /\
    Forall (fun v => v = 0) rsi.
Proof.
  intros Hp Hn Hfall.
  assert (Hpos : 0 < IZR periods) by (apply IZR_lt; lia).
  assert (Hpred : 0 <= IZR (periods - 1)) by (apply IZR_le; lia).
  set (Inv := fun st : R * R => fst st = 0 /\ 0 < snd st).
  assert (Hval : forall st, Inv st -> rs_value st = 0).
  { intros [up down] [Hu Hd]. cbn [fst snd] in *. subst up.
    unfold rs_value. cbn [fst snd]. unfold_R. field. lra. }
  assert (Hstep : forall st d, In d (np_diff prices) -> Inv st ->
                    Inv (rs_update periods st d)).
  { intros [up down] d Hd [Hu Hdn]. cbn [fst snd] in *. subst up.
    rewrite Forall_forall in Hfall. specialize (Hfall d Hd).
    unfold Inv, rs_update. cbn [fst snd]. unfold_R.
    destruct (Rlt_dec 0 d); [lra|]. split.
    - unfold Rdiv. ring.
    - apply Rdiv_lt_0_compat; [|exact Hpos].
      pose proof (Rmult_le_pos _ _ (Rlt_le _ _ Hdn) Hpred). lra. }
  assert (Hseed : Inv (rs_seed (np_diff prices) periods)).
  { unfold Inv, rs_seed. cbn [fst snd].
    set (seed := take (np_diff prices) (periods + 1)).
    assert (Hsn : Forall (fun d => d < 0) seed).
    { apply Forall_forall. intros x Hx. rewrite Forall_forall in Hfall.
      apply Hfall. unfold seed, take in Hx.
      rewrite <- (firstn_skipn (slice_stop (length (np_diff prices)) (periods + 1))
                               (np_diff prices)).
      apply in_or_app. left. exact Hx. }
    assert (Hne : seed <> []).
    { unfold seed, take. pose proof (length_np_diff prices) as L.
      destruct (np_diff prices) as [|d ds]; [cbn in L; lia|].
      unfold slice_stop. destruct (Z.ltb_spec (periods + 1) 0); [lia|].
      destruct (Nat.min (Z.to_nat (periods + 1)) (length (d :: ds))) eqn:E;
        [cbn [length] in E; lia|discriminate]. }
    destruct (filter_all_negative seed Hsn) as [E1 E2]. rewrite E1, E2.
    pose proof (np_sum_negative seed Hne Hsn). sum_R. unfold_R. split.
    - unfold Rdiv. ring.
    - apply Rdiv_lt_0_compat; lra. }
  unfold relative_strength. cbn zeta.
  set (st := rs_seed (np_diff prices) periods) in *.
  set (rsi0 := setslice _ periods (rs_value st)).
  assert (L0 : length rsi0 = length prices)
    by (unfold rsi0; rewrite length_setslice, repeat_length; reflexivity).
  destruct (rs_loop_total (np_diff prices) periods
              (py_range periods (Z.of_nat (length prices))) st rsi0)
    as [rsi [Hrun L]].
  { intros i Hi. apply In_py_range in Hi.
    split; apply py_index_in_reach; rewrite ?L0, ?length_np_diff; lia. }
  exists rsi. split; [exact Hrun|]. split; [lia|].
  apply (rs_loop_forall (np_diff prices) periods Inv (fun v => v = 0)
           Hstep Hval (py_range periods (Z.of_nat (length prices)))
           st rsi0 rsi Hseed); [|exact Hrun].
  apply Forall_forall. intros x Hx.
  destruct (In_nth_error _ _ Hx) as [k Hk]. unfold rsi0 in Hk.
  rewrite nth_error_setslice in Hk. destruct (k <? _)%nat.
  - rewrite <- (Hval st Hseed). congruence.
  - apply nth_error_In, repeat_spec in Hk. subst x. reflexivity.
Qed.
End FallingPrices.

Lemma relative_strength_falling_witness :
  exists rsi,
    relative_strength [5; 4; 2]%R 1 = Ok rsi /\
    length rsi = 3%nat /\
    Forall (fun v => v = 0%R) rsi.
Proof.
  refine (relative_strength_falling [5; 4; 2]%R 1 _ _ _);
    [lia|simpl; lia|].
  cbn [np_diff]. unfold_R. repeat constructor; lra.
Defined.

(** ** The modes of [returns] and its callers *)

Section Lookup.
Context {A : Type} `{Numeric A}.

(** X11. In point-to-point mode a [start] or [end] that is no label of the
    index raises [KeyError]; [end] is the clock's reading when it is not
    given. *)
Theorem returns_missing_label (now : Z) (ts : Series A)
  (kwargs : returns_kwargs) (start : Z) :
  kw_start kwargs = Some start ->
  length (s_index ts) = length (s_values ts) ->
  ~ In (kwargs_get (kw_end kwargs) now) (s_index ts) \/ ~ In start (s_index ts) ->
  returns now ts kwargs = Raise KeyError.
Proof.
  intros Hstart Hlen Hmiss. unfold returns. rewrite Hstart. unfold loc.
  destruct (in_dec Z.eq_dec (kwargs_get (kw_end kwargs) now) (s_index ts))
    as [Hin|Hout].
  - destruct (loc_at_found _ _ _ Hin Hlen) as [v Hv]. rewrite Hv. cbn [bind].
    destruct Hmiss as [Hm|Hm]; [contradiction|].
    rewrite loc_at_missing by exact Hm. reflexivity.
  - rewrite loc_at_missing by exact Hout. reflexivity.
Qed.
End Lookup.

Section ExactModes.
Local Open Scope R_scope.

(** The compounded gross returns over one period are the prices over the
    first price. *)
Lemma cumulative_gross_values (now : Z) (P : list R) (e : option Z) (i : nat) :
  Forall (fun p => p <> 0) P -> (1 <= i < length P)%nat ->
  exists out,
    returns now (series_of P)
      (mkReturnsKw (Some "gross"%string) (Some true) None e (Some 1%Z))
    = Ok (Frame out) /\
    nth_error (s_values out) i = Some (Some (nth i P 0 / nth 0 P 0)).
Proof.
  intros Hnz Hi.
  destruct (returns_compounded now (series_of P)
              (mkReturnsKw (Some "gross"%string) (Some true) None e (Some 1%Z)))
    as [out [Hrun [_ [_ [Hval _]]]]]; [reflexivity|reflexivity|cbn; lia|].
  cbn [kwargs_get kw_period kw_type] in Hval.
  change (if String.eqb "gross" "net" then 0%Z else 1%Z) with 1%Z in Hval.
  exists out. split; [exact Hrun|].
  cbn [series_of s_values] in Hval. rewrite length_map in Hval.
  rewrite Hval by lia. f_equal. unfold running_product.
  rewrite (nth_error_nth (map (periodic_return (map norm P) (Z.to_nat 1) 1)
                              (seq 0 (length P))) i None
             (x := Some (nth i P 0 / nth (i - 1) P 0 - 1 + 1))).
  - rewrite firstn_map, firstn_seq.
    replace (Nat.min (S i) (length P)) with (S i) by lia.
    change (Z.to_nat 1) with 1%nat.
    change (fold_left mul ?l one) with (fold_left Rmult l 1).
    rewrite gross_product_telescopes by (assumption || lia). reflexivity.
  - rewrite nth_error_map, nth_error_seq.
    destruct (Nat.ltb_spec i (length P)); [|lia].
    cbn [option_map Nat.add]. f_equal.
    change (Z.to_nat 1) with 1%nat. apply periodic_return_at. lia.
Qed.

(** X12. The two modes of [returns] agree: on nonzero prices labelled by
    their places, the point-to-point net return from the first label to
    label [b] is the compounded gross one-period return at [b], less one. *)
Theorem returns_modes_agree (now : Z) (P : list R) (b : nat)
  (cumulative : option bool) (period e : option Z) :
  Forall (fun p => p <> 0) P -> (1 <= b < length P)%nat ->
  exists out r,
    returns now (series_of P)
      (mkReturnsKw (Some "gross"%string) (Some true) None e (Some 1%Z))
    = Ok (Frame out) /\
    nth_error (s_values out) b = Some (Some r) /\
    returns now (series_of P)
      (mkReturnsKw (Some "net"%string) cumulative (Some 0%Z)
                   (Some (Z.of_nat b)) period)
    = Ok (Scalar (Some (r - 1 + 0))).
Proof.
  intros Hnz Hb.
  destruct (cumulative_gross_values now P e b Hnz Hb) as [out [Hrun Hval]].
  exists out, (nth b P 0 / nth 0 P 0). split; [exact Hrun|].
  split; [exact Hval|].
  unfold returns. cbn [kw_start kw_end kw_type kwargs_get].
  rewrite (loc_series_of P b) by lia.
  change 0%Z with (Z.of_nat 0). rewrite (loc_series_of P 0) by lia.
  cbn [bind].
  rewrite !(nth_indep _ None (norm 0)) by (rewrite length_map; lia).
  rewrite !map_nth. reflexivity.
Qed.

(** X13. A period of zero is not refused: every price is compared with
    itself, and on nonzero prices the returns are all 0 for the net type
    and all 1 for the gross type. *)
Theorem returns_zero_period (now : Z) (P : list R) (gross : bool) (e : option Z) :
  Forall (fun p => p <> 0) P ->
  returns now (series_of P)
    (mkReturnsKw (Some (if gross then "gross" else "net")%string)
                 (Some false) None e (Some 0%Z))
  = Ok (Frame (mkSeries (tl (s_index (series_of P)))
                 (repeat (Some (if gross then 1 else 0)) (length P - 1)))).
Proof.
  intros Hnz.
  set (kwargs := mkReturnsKw _ _ _ _ _).
  destruct (returns_plain now (series_of P) kwargs)
    as [out [Hrun [Hidx [Hlen Hval]]]]; [reflexivity|reflexivity|cbn; lia|].
  rewrite Hrun. do 2 f_equal. destruct out as [index values].
  cbn [s_index s_values] in *. subst index. f_equal.
  cbn [series_of s_values] in Hlen, Hval. rewrite length_map in Hlen, Hval.
  apply nth_error_ext. intros i.
  destruct (Nat.lt_ge_cases (S i) (length P)) as [Hi|Hi].
  - rewrite Hval by exact Hi. rewrite nth_error_repeat by lia. f_equal.
    cbn [kwargs kw_period kw_type kwargs_get]. change (Z.to_nat 0) with 0%nat.
    rewrite periodic_return_at by lia. f_equal. rewrite Nat.sub_0_r.
    assert (nth (S i) P 0 <> 0).
    { rewrite Forall_forall in Hnz. apply Hnz. apply nth_In. exact Hi. }
    destruct gross; cbn; field; assumption.
  - rewrite (proj2 (nth_error_None values i)) by lia.
    symmetry. apply nth_error_None. rewrite repeat_length. lia.
Qed.
End ExactModes.

Section BackwardShift.
Context {A : Type} `{Numeric A}.

Lemma nth_error_shift_values_back (l : list (option A)) (k : Z) (i : nat) :
  (k < 0)%Z -> (i < length l)%nat ->
  nth_error (shift_values l k) i = Some (nth (i + Z.to_nat (- k)) l None).
Proof.
  intros Hk Hi. unfold shift_values.
  destruct (Z.leb_spec 0 k); [lia|].
  set (j := Nat.min (Z.to_nat (- k)) (length l)).
  rewrite nth_error_app, length_skipn.
  destruct (Nat.ltb_spec i (length l - j)) as [Hlt|Hge].
  - rewrite nth_error_skipn.
    replace (j + i)%nat with (i + Z.to_nat (- k))%nat by (unfold j; lia).
    apply nth_error_nth'. unfold j in Hlt. lia.
  - rewrite nth_error_repeat by (unfold j in *; lia).
    rewrite nth_overflow by (unfold j in Hge; lia). reflexivity.
Qed.

(** X14. A negative period is not refused either: the return at a place
    compares its value with the one [|period|] places later, so that
    without [cumulative] the output, still the series less its first entry,
    ends with missing returns where no later observation exists. *)
Theorem returns_negative_period (now : Z) (ts : Series A)
  (kwargs : returns_kwargs) (period : Z) :
  kw_start kwargs = None ->
  kwargs_get (kw_cumulative kwargs) false = false ->
  kw_period kwargs = Some period -> (period < 0)%Z ->
  let relative :=
    if String.eqb (kwargs_get (kw_type kwargs) "net"%string) "net"
    then 0%Z else 1%Z in
  let n := length (s_values ts) in
  let k := Z.to_nat (- period) in
  exists out,
    returns now ts kwargs = Ok (Frame out) /\
    length (s_values out) = (n - 1)%nat /\
    (forall i, (S i < n)%nat ->
       nth_error (s_values out) i
       = Some (forward_return (s_values ts) k relative (S i))) /\
    (forall i, (S i < n)%nat -> (n <= S i + k)%nat ->
       nth_error (s_values out) i = Some None).
Proof.
  intros Hstart Hcum Hper Hneg relative n k.
  rewrite returns_periodic_frame by exact Hstart. rewrite Hcum, Hper.
  cbn [kwargs_get]. fold relative. eexists. split; [reflexivity|].
  cbn [s_tail s_values s_add_scalar s_sub_scalar s_div shift].
  assert (Hat : forall i, (S i < n)%nat ->
            nth_error (tl (map (fun x => lift2 add x (Some (ofZ relative)))
                        (map (fun x => lift2 sub x (Some one))
                           (map2 (lift2 div) (s_values ts)
                              (shift_values (s_values ts) period))))) i
            = Some (forward_return (s_values ts) k relative (S i))).
  { intros i Hi.
    assert (Htl : forall (T : Type) (l : list T) j,
              nth_error (tl l) j = nth_error l (S j))
      by (intros T [|x l] j; [destruct j|]; reflexivity).
    rewrite Htl, !nth_error_map, nth_error_map2_both.
    rewrite (nth_error_nth' (s_values ts) None) by (fold n; lia).
    rewrite nth_error_shift_values_back by (fold n; lia || exact Hneg).
    reflexivity. }
  split; [|split].
  - assert (Htl_len : forall (T : Type) (l : list T),
              length (tl l) = (length l - 1)%nat)
      by (intros T [|x l]; cbn [tl length]; lia).
    rewrite Htl_len, !length_map, length_map2, length_shift_values.
    unfold n. lia.
  - exact Hat.
  - intros i Hi Hend. rewrite Hat by exact Hi. f_equal.
    unfold forward_return.
    rewrite (@nth_overflow _ (s_values ts) (S i + k)%nat None)
      by (unfold n, k in *; lia).
    rewrite lift2_none_r. reflexivity.
Qed.
End BackwardShift.

Section ExactDaily.
Local Open Scope R_scope.

Lemma length_step_returns (P : list R) :
  length (step_returns P) = (length P - 1)%nat.
Proof. unfold step_returns. rewrite length_map, length_seq. reflexivity. Qed.

Lemma nth_step_returns (P : list R) (i : nat) :
  (S i < length P)%nat ->
  nth i (step_returns P) 0 = nth (S i) P 0 / nth i P 0 - 1 + 0.
Proof.
  intros Hi. unfold step_returns. rewrite nth_map_seq by lia. reflexivity.
Qed.

(** What [daily_returns] answers on a plain sequence of prices. *)
Lemma daily_returns_values (now : Z) (P : list R) (relative : option R) :
  daily_returns now (series_of P) relative
  = Ok (Frame (mkSeries (tl (s_index (series_of P)))
                        (map norm (step_returns P)))).
Proof.
  unfold daily_returns. cbn zeta.
  destruct (returns_plain now (series_of P) (mkReturnsKw None None None None None))
    as [out [Hrun [Hidx [Hlen Hval]]]]; [reflexivity|reflexivity|cbn; lia|].
  rewrite Hrun. do 2 f_equal. destruct out as [index values].
  cbn [s_index s_values] in *. subst index. f_equal.
  cbn [series_of s_values] in Hlen, Hval. rewrite length_map in Hlen, Hval.
  apply nth_error_ext. intros i.
  destruct (Nat.lt_ge_cases (S i) (length P)) as [Hi|Hi].
  - rewrite Hval by exact Hi. cbn [kw_period kw_type kwargs_get].
    change (Z.to_nat 1) with 1%nat.
    rewrite periodic_return_at by lia.
    rewrite nth_error_map.
    rewrite (nth_error_nth' (step_returns P) 0)
      by (rewrite length_step_returns; lia).
    rewrite nth_step_returns by exact Hi. cbn [option_map].
    replace (S i - 1)%nat with i by lia. reflexivity.
  - rewrite (proj2 (nth_error_None values i)) by lia.
    symmetry. apply nth_error_None.
    rewrite length_map, length_step_returns. lia.
Qed.

(** The growth factors of the step returns telescope. *)
Lemma compound_step_returns (P : list R) (m : nat) :
  Forall (fun p => p <> 0) P -> (m < length P)%nat ->
  compound (firstn m (step_returns P)) = nth m P 0 / nth 0 P 0.
Proof.
  intros Hnz. induction m as [|m IH]; intros Hm.
  - cbn [firstn compound fold_right].
    assert (nth 0 P 0 <> 0).
    { rewrite Forall_forall in Hnz. apply Hnz. apply nth_In. exact Hm. }
    field. assumption.
  - assert (Hsplit : firstn (S m) (step_returns P)
                     = firstn m (step_returns P) ++ [nth m (step_returns P) 0]).
    { rewrite <- (firstn_skipn m (firstn (S m) (step_returns P))).
      rewrite firstn_firstn. replace (Nat.min m (S m)) with m by lia.
      f_equal. apply nth_error_ext. intros [|j].
      - rewrite nth_error_skipn, nth_error_firstn, Nat.add_0_r.
        destruct (Nat.ltb_spec m (S m)); [|lia]. cbn [nth_error].
        apply nth_error_nth'. rewrite length_step_returns. lia.
      - rewrite nth_error_skipn, nth_error_firstn.
        destruct (Nat.ltb_spec (m + S j) (S m)); [lia|].
        destruct j; reflexivity. }
    rewrite Hsplit. unfold compound in *. rewrite fold_right_app.
    cbn [fold_right].
    assert (Hfold : forall (l : list R) (a : R),
              fold_right (fun r acc => (1 + r) * acc) a l
              = fold_right (fun r acc => (1 + r) * acc) 1 l * a).
    { induction l as [|x l IHl]; intros a; cbn [fold_right]; [ring|].
      rewrite IHl. ring. }
    rewrite Hfold, IH by lia. rewrite nth_step_returns by lia.
    assert (nth 0 P 0 <> 0 /\ nth m P 0 <> 0) as [H0 Hm'].
    { rewrite Forall_forall in Hnz. split; apply Hnz; apply nth_In; lia. }
    field. split; assumption.
Qed.

(** X15. [daily_returns] answers with the net one-period returns of the
    prices, less the first place, whatever [relative] it is given; on
    nonzero prices their growth factors compound back to the prices:
    [P[0] * (1 + r_0) * ... * (1 + r_i) = P[i+1]]. *)
Theorem daily_returns_compound (now : Z) (P : list R) (relative : option R) :
  Forall (fun p => p <> 0) P ->
  exists out rets,
    daily_returns now (series_of P) relative = Ok (Frame out) /\
    s_values out = map Some rets /\
    length rets = (length P - 1)%nat /\
    (forall i, (S i < length P)%nat ->
       nth i rets 0 = nth (S i) P 0 / nth i P 0 - 1 + 0 /\
       nth 0 P 0 * compound (firstn (S i) rets) = nth (S i) P 0).
Proof.
  intros Hnz. eexists. exists (step_returns P).
  split; [apply daily_returns_values|]. split; [reflexivity|].
  split; [apply length_step_returns|].
  intros i Hi. split; [apply nth_step_returns; exact Hi|].
  rewrite compound_step_returns by assumption.
  assert (nth 0 P 0 <> 0).
  { rewrite Forall_forall in Hnz. apply Hnz. apply nth_In. lia. }
  field. assumption.
Qed.
End ExactDaily.

(** ** Averages over a stride *)

Section Strides.
Context {A : Type} `{Numeric A}.

Lemma mod_opp_zero (i p : Z) :
  ((i mod - p =? 0) = (i mod p =? 0))%Z.
Proof.
  destruct (Z.eq_dec p 0) as [->|Hp]; [reflexivity|].
  destruct (Z.eqb_spec (i mod p) 0) as [E|E].
  - apply Z.eqb_eq. apply Z.mod_opp_r_z; assumption.
  - apply Z.eqb_neq. intros E'. apply E.
    rewrite <- (Z.opp_involutive p). apply Z.mod_opp_r_z; [lia|exact E'].
Qed.

Lemma average_loop_opp (ts : Series A) (relative period : Z)
  (idxs : list Z) (avg_ret : option A) :
  average_loop ts relative (Some (- period)%Z) idxs avg_ret
  = average_loop ts relative (Some period) idxs avg_ret.
Proof.
  revert avg_ret. induction idxs as [|i idxs IH]; intros avg_ret; [reflexivity|].
  cbn [average_loop].
  destruct (Z.eq_dec period 0) as [->|Hp]; [reflexivity|].
  assert (Hm : forall q, q <> 0%Z -> py_mod i (Some q) = Ok (i mod q)%Z)
    by (intros [|q|q] Hq; [contradiction|reflexivity|reflexivity]).
  rewrite !Hm by lia. cbn [bind]. rewrite mod_opp_zero.
  destruct (i mod period =? 0)%Z.
  - destruct (loc ts i); [|reflexivity]. cbn [bind]. apply IH.
  - apply IH.
Qed.

(** X17. The sign of the stride does not matter to [average_returns]: a
    negative period selects the same places as its opposite and gives the
    same answer, error included. *)
Theorem average_returns_stride_sign (ts : Series A) (type : option string)
  (period : Z) :
  average_returns ts (mkAverageKw type (Some (- period)%Z))
  = average_returns ts (mkAverageKw type (Some period)).
Proof.
  unfold average_returns. cbn [avg_type avg_period].
  rewrite average_loop_opp. reflexivity.
Qed.

(** X18. [average_returns] reads its period only inside the loop: on a
    series that is not empty a call without [period] raises [TypeError],
    while on an empty series every call answers [1 - 1], whatever the
    keywords. *)
Theorem average_returns_period_read_late (ts : Series A)
  (kwargs : average_kwargs) :
  (s_index ts = [] ->
   average_returns ts kwargs = Ok (lift2 sub (Some one) (Some one))) /\
  (s_index ts <> [] -> avg_period kwargs = None ->
   average_returns ts kwargs = Raise TypeError).
Proof.
  unfold average_returns. split.
  - intros ->. reflexivity.
  - intros Hne ->. destruct (s_index ts) as [|t index]; [contradiction|].
    unfold py_range. cbn [length]. rewrite Z.sub_0_r, Nat2Z.id. reflexivity.
Qed.

(** X16. The daily returns cannot be averaged as they come. [daily_returns]
    answers with the series less its first place, labels kept: on prices
    labelled [0 .. n-1] the returns carry the labels [1 .. n-1]. The loop of
    [average_returns] starts at the integer 0, a multiple of every stride,
    and looks it up among the labels: with two prices or more and a stride
    other than zero the call raises [KeyError]. *)
Theorem average_of_daily_returns_key_error (now : Z) (prices : list A)
  (relative : option A) (kwargs : average_kwargs) (period : Z) :
  (2 <= length prices)%nat ->
  avg_period kwargs = Some period -> period <> 0%Z ->
  exists out,
    daily_returns now (series_of prices) relative = Ok (Frame out) /\
    s_index out = py_range 1 (Z.of_nat (length prices)) /\
    average_returns out kwargs = Raise KeyError.
Proof.
  intros Hn Hk Hp. unfold daily_returns. cbn zeta.
  rewrite returns_periodic_frame by reflexivity.
  cbn [kw_cumulative kwargs_get]. eexists. split; [reflexivity|].
  assert (Hidx : tl (py_range 0 (Z.of_nat (length prices)))
                 = py_range 1 (Z.of_nat (length prices))).
  { change 0%Z with (Z.of_nat 0). change 1%Z with (Z.of_nat 1).
    rewrite !py_range_from_nat.
    replace (Z.to_nat (Z.of_nat (length prices) - Z.of_nat 0))
      with (S (Z.to_nat (Z.of_nat (length prices) - Z.of_nat 1))) by lia.
    reflexivity. }
  set (out := s_tail _).
  assert (Hout : s_index out = py_range 1 (Z.of_nat (length prices)))
    by exact Hidx.
  split; [exact Hout|].
  unfold average_returns. rewrite Hk, Hout, length_py_range.
  unfold py_range at 1.
  replace (Z.to_nat (Z.of_nat (Z.to_nat (Z.of_nat (length prices) - 1)) - 0))
    with (S (length prices - 2)) by lia.
  cbn [seq map average_loop].
  assert (Hmod : py_mod (0 + Z.of_nat 0) (Some period) = Ok 0%Z)
    by (destruct period; [contradiction|reflexivity|reflexivity]).
  rewrite Hmod. cbn [bind Z.eqb]. unfold loc.
  rewrite loc_at_missing; [reflexivity|].
  rewrite Hout. intros Hin. apply In_py_range in Hin. lia.
Qed.
End Strides.

Section ExactAverages.
Local Open Scope R_scope.

Lemma stride_from_one {T : Type} (k : Z) (l : list T) : stride_from k l 1 = l.
Proof.
  revert k. induction l as [|x l IH]; intros k; [reflexivity|].
  cbn [stride_from]. rewrite Z.mod_1_r. cbn [Z.eqb]. f_equal. apply IH.
Qed.

Lemma product_of_factors (l : list R) :
  fold_right Rmult 1 (map (fun x => 1 + x + IZR 0) l) = compound l.
Proof.
  unfold compound. induction l as [|x l IH]; cbn [map fold_right]; [reflexivity|].
  rewrite IH. ring.
Qed.

(** What [average_returns] makes of net returns taken one by one, on a
    series whose labels are its places. *)
Lemma average_returns_every_place (rets : list R) (type : option string) :
  kwargs_get type "net"%string = "net"%string ->
  average_returns (series_of rets) (mkAverageKw type (Some 1%Z))
  = Ok (Some (compound rets - 1)).
Proof.
  intros Htype. unfold average_returns.
  cbn [avg_type avg_period]. rewrite Htype.
  cbn [String.eqb Ascii.eqb Bool.eqb].
  replace (length (s_index (series_of rets))) with (length rets)
    by (cbn [series_of s_index]; rewrite length_py_range; lia).
  change 0%Z with (Z.of_nat 0) at 2. rewrite py_range_from_nat.
  rewrite Z.sub_0_r, Nat2Z.id.
  pose proof (average_loop_product 0 1 rets [] 1) as Hloop.
  cbn [app length] in Hloop. change (Some one) with (Some 1).
  rewrite Hloop by discriminate. cbn [bind Z.of_nat].
  rewrite stride_from_one, product_of_factors. f_equal.
  change (lift2 sub (Some ?a) (Some 1)) with (Some (a - 1)).
  f_equal. ring.
Qed.
End ExactAverages.

(** ** Compounding formulas *)

Section ExactFormulas.
Local Open Scope R_scope.

Lemma py_pow_R (x : R) (n : Z) :
  x <> 0 \/ (0 <= n)%Z -> py_pow x n = Ok (powerRZ x n).
Proof.
  intros Hx. unfold py_pow, eqb. unfold_R.
  destruct (Z.ltb_spec n 0); [|reflexivity]. cbn [andb].
  destruct Hx as [Hx|Hn]; [|lia].
  destruct (Rle_dec x 0); destruct (Rle_dec 0 x); try reflexivity. lra.
Qed.

Lemma py_log_R (x : R) : 0 < x -> py_log x = Ok (ln x).
Proof.
  intros Hx. unfold py_log. unfold_R. destruct (Rle_dec x 0); [lra|reflexivity].
Qed.

Lemma ln_powerRZ (x : R) (n : Z) :
  0 < x -> ln (powerRZ x n) = IZR n * ln x.
Proof.
  intros Hx. destruct n as [|p|p]; cbn [powerRZ].
  - rewrite ln_1. ring.
  - rewrite ln_pow by exact Hx. rewrite INR_IZR_INZ, positive_nat_Z. reflexivity.
  - rewrite ln_Rinv by (apply pow_lt; exact Hx).
    rewrite ln_pow by exact Hx. rewrite INR_IZR_INZ, positive_nat_Z.
    change (Z.neg p) with (- Z.pos p)%Z. rewrite opp_IZR. ring.
Qed.

Lemma compound_repeat (r : R) (n : nat) :
  compound (repeat r n) = (1 + r) ^ n.
Proof.
  unfold compound. induction n as [|n IH]; cbn [repeat fold_right pow];
    [reflexivity|].
  rewrite IH. reflexivity.
Qed.

(** X19. As the docstring of [annualized_returns] has it: the projection of
    a return [r] over [n] periods is what [average_returns] gives for the
    series of [n] times [r], taken place by place with type net. *)
Theorem annualized_as_average (r : R) (n : nat) :
  average_returns (series_of (repeat r n))
    (mkAverageKw (Some "net"%string) (Some 1%Z))
  = (a <- annualized_returns r (Z.of_nat n) ;; Ok (Some a)).
Proof.
  unfold annualized_returns. unfold_R.
  rewrite py_pow_R by (right; lia). cbn [bind].
  rewrite average_returns_every_place by reflexivity.
  rewrite compound_repeat, pow_powerRZ. reflexivity.
Qed.

(** X20. A return of zero projects to zero over any number of periods,
    negative numbers included. *)
Theorem annualized_returns_of_zero (n : Z) :
  annualized_returns 0 n = Ok 0.
Proof.
  unfold annualized_returns. unfold_R.
  rewrite py_pow_R by (left; lra). cbn [bind]. f_equal.
  rewrite Rplus_0_r, powerRZ_R1. unfold_R. ring.
Qed.

Lemma cc_annualize_returns_defined (r : R) (n : Z) :
  -1 < r ->
  cc_annualize_returns r n = Ok (ln (1 + (powerRZ (1 + r) n - 1))).
Proof.
  intros Hr. unfold cc_annualize_returns, annualized_returns. unfold_R.
  rewrite py_pow_R by (left; lra). cbn [bind].
  assert (Hpos : 0 < powerRZ (1 + r) n) by (apply powerRZ_lt; lra).
  rewrite py_log_R by (unfold_R; lra). reflexivity.
Qed.

(** X21. For a return above -1 the continuously compounded annual rate is
    the number of periods times the rate of one period:
    [log(1 + ((1 + r)^n - 1)) = n * log(1 + r)]. *)
Theorem cc_annualize_returns_linear (r : R) (n : Z) :
  -1 < r ->
  cc_annualize_returns r n = Ok (IZR n * ln (1 + r)).
Proof.
  intros Hr. rewrite cc_annualize_returns_defined by exact Hr. f_equal.
  replace (1 + (powerRZ (1 + r) n - 1)) with (powerRZ (1 + r) n) by ring.
  apply ln_powerRZ. lra.
Qed.

(** X22. A total loss has no continuously compounded rate: at a return of
    -1 the projection over one period or more is -1 and its logarithm
    raises [ValueError]; over a negative number of periods the power itself
    raises [ZeroDivisionError]. *)
Theorem cc_annualize_returns_total_loss (n : Z) :
  ((1 <= n)%Z ->
   annualized_returns (-1) n = Ok (-1) /\
   cc_annualize_returns (-1) n = Raise ValueError) /\
  ((n < 0)%Z ->
   annualized_returns (-1) n = Raise ZeroDivisionError /\
   cc_annualize_returns (-1) n = Raise ZeroDivisionError).
Proof.
  split.
  - intros Hn.
    assert (Ha : annualized_returns (-1) n = Ok (-1)).
    { unfold annualized_returns. unfold_R.
      rewrite py_pow_R by (right; lia). cbn [bind]. f_equal. unfold_R.
      destruct n as [|p|p]; try lia. cbn [powerRZ].
      replace (1 + -1) with 0 by ring.
      rewrite pow_i by apply Pos2Nat.is_pos. ring. }
    split; [exact Ha|]. unfold cc_annualize_returns. rewrite Ha. cbn [bind].
    unfold py_log. unfold_R. destruct (Rle_dec (1 + -1) 0); [reflexivity|lra].
  - intros Hn.
    assert (Ha : annualized_returns (-1) n = Raise ZeroDivisionError).
    { unfold annualized_returns, py_pow, eqb. unfold_R.
      destruct (Z.ltb_spec n 0); [|lia]. cbn [andb].
      destruct (Rle_dec (1 + -1) 0); [|lra].
      destruct (Rle_dec 0 (1 + -1)); [reflexivity|lra]. }
    split; [exact Ha|]. unfold cc_annualize_returns. rewrite Ha. reflexivity.
Qed.

(** X23. Round trip: whenever [cc_annualize_returns] answers [c],
    [annualized_returns] answers [exp(c) - 1] on the same arguments. *)
Theorem cc_annualize_returns_inverse (r : R) (n : Z) (c : R) :
  cc_annualize_returns r n = Ok c ->
  annualized_returns r n = Ok (Rtrigo_def.exp c - 1).
Proof.
  unfold cc_annualize_returns.
  destruct (annualized_returns r n) as [a|e]; [|discriminate].
  cbn [bind]. unfold py_log. unfold_R.
  destruct (Rle_dec (1 + a) 0) as [Hle|Hgt]; [discriminate|].
  intros [= <-]. f_equal. rewrite exp_ln by lra. ring.
Qed.
End ExactFormulas.

Lemma cc_annualize_returns_linear_witness :
  cc_annualize_returns (1 / 10)%R 12 = Ok (IZR 12 * ln (1 + 1 / 10))%R.
Proof.
  apply (cc_annualize_returns_linear (1 / 10)%R 12). lra.
Defined.

Lemma cc_annualize_returns_inverse_witness :
  annualized_returns (1 / 10)%R 12
  = Ok (Rtrigo_def.exp (ln (1 + (powerRZ (1 + 1 / 10) 12 - 1))) - 1)%R.
Proof.
  apply (cc_annualize_returns_inverse (1 / 10)%R 12).
  apply cc_annualize_returns_defined. lra.
Defined.

(** ** The Sharpe ratio *)

(** X24. On no returns at all [qstk_get_sharpe_ratio] answers NaN, for
    every risk-free rate: the mean of nothing is 0/0. *)
Theorem sharpe_ratio_of_nothing (risk_free : float) :
  PrimFloat.is_nan (qstk_get_sharpe_ratio [] risk_free) = true.
Proof.
  unfold qstk_get_sharpe_ratio. cbn zeta.
  assert (Hd : mul (np_std (@nil float)) (sqrt (ofZ 252)) = nan)
    by (vm_compute; reflexivity).
  assert (Hm : mul (np_mean (@nil float)) (ofZ 252) = nan)
    by (vm_compute; reflexivity).
  rewrite Hd, Hm. cbn [div sub float_Numeric].
  unfold PrimFloat.is_nan. rewrite eqb_spec, div_spec, sub_spec.
  change (Prim2SF nan) with S754_nan.
  destruct (Prim2SF risk_free); reflexivity.
Qed.

Section ExactSharpe.
Local Open Scope R_scope.

Lemma np_mean_repeat (c : R) (k : nat) :
  (1 <= k)%nat -> np_mean (repeat c k) = c.
Proof.
  intros Hk. unfold np_mean. rewrite np_sum_repeat, repeat_length. unfold_R.
  assert (0 < IZR (Z.of_nat k)) by (apply IZR_lt; lia).
  field. lra.
Qed.

(** X25. In exact arithmetic returns that are all equal have a standard
    deviation of zero, so that [qstk_get_sharpe_ratio] divides by zero on
    every constant series. *)
Theorem np_std_of_constant (c : R) (k : nat) :
  (1 <= k)%nat ->
  np_std (repeat c k) = 0 /\
  np_std (repeat c k) * R_sqrt.sqrt 252 = 0.
Proof.
  intros Hk.
  assert (E : np_std (repeat c k) = 0).
  { unfold np_std. cbn zeta. rewrite np_mean_repeat by exact Hk.
    rewrite map_repeat. unfold_R.
    replace ((c - c) * (c - c)) with 0 by ring.
    rewrite np_mean_repeat by exact Hk. apply sqrt_0. }
  split; [exact E|]. rewrite E. ring.
Qed.

Lemma sqrt_252 : R_sqrt.sqrt 252 * R_sqrt.sqrt 252 = 252.
Proof. apply sqrt_sqrt. lra. Qed.

(** X26. With a risk-free rate of zero and a deviation that is not zero
    the ratio is the mean over the deviation, times the square root of
    252. *)
Theorem sharpe_ratio_annualisation (rets : list R) :
  np_std rets <> 0 ->
  qstk_get_sharpe_ratio rets 0
  = R_sqrt.sqrt 252 * (np_mean rets / np_std rets).
Proof.
  intros Hd. unfold qstk_get_sharpe_ratio. cbn zeta. unfold_R.
  cbn [sqrt R_Numeric].
  assert (Hs : 0 < R_sqrt.sqrt 252) by (apply sqrt_lt_R0; lra).
  pose proof sqrt_252 as H252.
  set (s := R_sqrt.sqrt 252) in *. rewrite <- H252.
  field. split; lra.
Qed.

Lemma np_sum_times (k : R) (l : list R) :
  np_sum (map (Rmult k) l) = k * np_sum l.
Proof.
  induction l as [|x l IH]; cbn [map]; sum_R; unfold_R; [ring|].
  rewrite IH. ring.
Qed.

Lemma np_mean_times (k : R) (l : list R) :
  np_mean (map (Rmult k) l) = k * np_mean l.
Proof.
  unfold np_mean. rewrite np_sum_times, length_map. unfold_R.
  unfold Rdiv. ring.
Qed.

Lemma np_sum_squares_nonneg (m : R) (l : list R) :
  0 <= np_sum (map (fun x => (x - m) * (x - m)) l).
Proof.
  induction l as [|x l IH]; cbn [map]; sum_R; unfold_R; [lra|].
  pose proof (Rle_0_sqr (x - m)) as Hsq. unfold Rsqr in Hsq. lra.
Qed.

Lemma np_std_times (k : R) (l : list R) :
  0 <= k -> l <> [] -> np_std (map (Rmult k) l) = k * np_std l.
Proof.
  intros Hk Hne. unfold np_std. cbn zeta. rewrite np_mean_times.
  rewrite map_map.
  rewrite (map_ext _ (fun x => (k * k) * ((x - np_mean l) * (x - np_mean l)))).
  2:{ intros x. unfold_R. ring. }
  rewrite <- (map_map (fun x => (x - np_mean l) * (x - np_mean l)) (Rmult (k * k))).
  rewrite np_mean_times. unfold_R.
  rewrite sqrt_mult.
  - rewrite sqrt_square by exact Hk. reflexivity.
  - apply Rmult_le_pos; exact Hk.
  - unfold np_mean. unfold_R. rewrite length_map.
    apply Rmult_le_pos; [apply np_sum_squares_nonneg|].
    left. apply Rinv_0_lt_compat. apply IZR_lt.
    destruct l; [contradiction|]. cbn [length]. lia.
Qed.

(** X27. With a risk-free rate of zero the ratio does not depend on the
    unit of the returns: multiplying every return by one positive factor
    leaves it as it is. *)
Theorem sharpe_ratio_scale_free (k : R) (rets : list R) :
  0 < k -> rets <> [] -> np_std rets <> 0 ->
  qstk_get_sharpe_ratio (map (Rmult k) rets) 0 = qstk_get_sharpe_ratio rets 0.
Proof.
  intros Hk Hne Hd. unfold qstk_get_sharpe_ratio. cbn zeta.
  rewrite np_mean_times, np_std_times by (lra || assumption). unfold_R.
  cbn [sqrt R_Numeric].
  assert (Hs : 0 < R_sqrt.sqrt 252) by (apply sqrt_lt_R0; lra).
  field. repeat split; lra.
Qed.
End ExactSharpe.

(** ** Instances of the properties above *)

Lemma moving_average_window_too_long_witness :
  moving_average [1; 2]%R 5 "exponential" = Raise IndexError.
Proof.
  apply (moving_average_window_too_long (A := R) [1; 2]%R 5 "exponential");
    [discriminate|simpl; lia].
Defined.

Lemma moving_average_convergence_short_witness :
  moving_average_convergence [1; 2; 3]%R 26 12 = Raise IndexError.
Proof.
  apply (moving_average_convergence_short (A := R) [1; 2; 3]%R 26 12);
    [discriminate|lia|lia|left; simpl; lia].
Defined.

Lemma kernel_weights_sum_to_one_witness :
  exists kern,
    ma_kernel 3 "exponential" = Ok kern /\
    length (normalise kern) = 3%nat /\
    Forall (fun x => (0 < x)%R) (normalise kern) /\
    np_sum (normalise kern) = 1%R.
Proof.
  apply (kernel_weights_sum_to_one 3 "exponential"). lia.
Defined.

Lemma moving_average_simple_mean_witness :
  exists mavg,
    moving_average [1; 2; 3; 4]%R 2 "simple" = Ok mavg /\
    nth_error mavg 3
    = Some (np_sum (map (fun j => nth (3 - j) [1; 2; 3; 4]%R 0%R) (seq 0 2))
            / IZR 2)%R.
Proof.
  apply (moving_average_simple_mean [1; 2; 3; 4]%R 2 3); [lia|simpl; lia].
Defined.

Lemma moving_average_constant_witness :
  moving_average (repeat 7%R 5) 2 "exponential" = Ok (repeat 7%R 5).
Proof.
  apply (moving_average_constant 7%R 5 2 "exponential"). lia.
Defined.

Lemma moving_average_convergence_constant_witness :
  moving_average_convergence (repeat 7%R 5) 3 2
  = Ok (repeat 7%R 5, repeat 7%R 5, repeat 0%R 5).
Proof.
  apply (moving_average_convergence_constant 7%R 5 3 2); lia.
Defined.

Lemma relative_strength_places_witness :
  let deltas := np_diff [1; 2; 3; 2; 1]%float in
  let seed := rs_seed deltas 2 in
  exists rsi,
    relative_strength [1; 2; 3; 2; 1]%float 2 = Ok rsi /\
    length rsi = 5%nat /\
    (forall i, (i < 2)%nat -> (i < 5)%nat ->
       nth_error rsi i = Some (rs_value seed)) /\
    (forall i, (2 <= i < 5)%nat ->
       nth_error rsi i
       = Some (rs_value (fold_left (rs_update 2)
                           (firstn (S (i - 2)) (skipn (2 - 1) deltas)) seed))).
Proof.
  exact (relative_strength_places [1; 2; 3; 2; 1]%float 2 ltac:(lia)).
Defined.

Lemma relative_strength_out_of_reach_witness :
  relative_strength [1; 2]%float (-1) = Raise IndexError.
Proof.
  apply (relative_strength_out_of_reach [1; 2]%float (-1)); simpl; lia.
Defined.

Lemma returns_missing_label_witness :
  returns 9 (series_of [1; 2; 4]%float)
          (mkReturnsKw None None (Some 0%Z) None None)
  = Raise KeyError.
Proof.
  apply (returns_missing_label 9 (series_of [1; 2; 4]%float)
           (mkReturnsKw None None (Some 0%Z) None None) 0);
    [reflexivity|reflexivity|].
  left. cbn. intros [E|[E|[E|[]]]]; discriminate.
Defined.

Lemma returns_modes_agree_witness :
  exists out r,
    returns 0 (series_of [100; 110; 121]%R)
      (mkReturnsKw (Some "gross"%string) (Some true) None None (Some 1%Z))
    = Ok (Frame out) /\
    nth_error (s_values out) 2 = Some (Some r) /\
    returns 0 (series_of [100; 110; 121]%R)
      (mkReturnsKw (Some "net"%string) None (Some 0%Z) (Some (Z.of_nat 2)) None)
    = Ok (Scalar (Some (r - 1 + 0)%R)).
Proof.
  refine (returns_modes_agree 0 [100; 110; 121]%R 2 None None None _ _).
  - repeat constructor; lra.
  - simpl. lia.
Defined.

Lemma returns_zero_period_witness :
  returns 0 (series_of [100; 110; 121]%R)
    (mkReturnsKw (Some "net"%string) (Some false) None None (Some 0%Z))
  = Ok (Frame (mkSeries (tl (s_index (series_of [100; 110; 121]%R)))
                 (repeat (Some 0%R) (3 - 1)))).
Proof.
  refine (returns_zero_period 0 [100; 110; 121]%R false None _).
  repeat constructor; lra.
Defined.

Lemma returns_negative_period_witness :
  let ts := series_of [1; 2; 4; 8]%float in
  exists out,
    returns 0 ts (mkReturnsKw None None None None (Some (-2)%Z)) = Ok (Frame out) /\
    length (s_values out) = 3%nat /\
    (forall i, (S i < 4)%nat ->
       nth_error (s_values out) i
       = Some (forward_return (s_values ts) 2 0 (S i))) /\
    (forall i, (S i < 4)%nat -> (4 <= S i + 2)%nat ->
       nth_error (s_values out) i = Some None).
Proof.
  exact (returns_negative_period 0 (series_of [1; 2; 4; 8]%float)
           (mkReturnsKw None None None None (Some (-2)%Z)) (-2)
           eq_refl eq_refl eq_refl ltac:(lia)).
Defined.

Lemma daily_returns_compound_witness :
  exists out rets,
    daily_returns 0 (series_of [100; 110; 121]%R) None = Ok (Frame out) /\
    s_values out = map Some rets /\
    length rets = 2%nat /\
    (forall i, (S i < 3)%nat ->
       (nth i rets 0 = nth (S i) [100; 110; 121] 0 / nth i [100; 110; 121] 0 - 1 + 0 /\
        100 * compound (firstn (S i) rets) = nth (S i) [100; 110; 121] 0)%R).
Proof.
  refine (daily_returns_compound 0 [100; 110; 121]%R None _).
  repeat constructor; lra.
Defined.

Lemma average_of_daily_returns_key_error_witness :
  exists out,
    daily_returns 0 (series_of [100; 110; 121]%float) None = Ok (Frame out) /\
    s_index out = py_range 1 (Z.of_nat (length [100; 110; 121]%float)) /\
    average_returns out (mkAverageKw None (Some 1%Z)) = Raise KeyError.
Proof.
  refine (average_of_daily_returns_key_error 0 [100; 110; 121]%float None
            (mkAverageKw None (Some 1%Z)) 1 _ eq_refl _).
  - simpl. lia.
  - lia.
Defined.

Lemma average_returns_period_read_late_witness :
  average_returns (mkSeries [] (@nil (option R))) (mkAverageKw None (Some 0%Z))
  = Ok (Some (1 - 1)%R) /\
  average_returns (series_of [1; 2]%R) (mkAverageKw None None) = Raise TypeError.
Proof.
  split.
  - exact (proj1 (average_returns_period_read_late
                    (mkSeries [] (@nil (option R))) (mkAverageKw None (Some 0%Z)))
                 eq_refl).
  - apply (proj2 (average_returns_period_read_late
                    (series_of [1; 2]%R) (mkAverageKw None None)));
      [discriminate|reflexivity].
Defined.

Lemma cc_annualize_returns_total_loss_witness :
  (annualized_returns (-1)%R 12 = Ok (-1)%R /\
   cc_annualize_returns (-1)%R 12 = Raise ValueError) /\
  (annualized_returns (-1)%R (-12) = Raise ZeroDivisionError /\
   cc_annualize_returns (-1)%R (-12) = Raise ZeroDivisionError).
Proof.
  split.
  - apply (proj1 (cc_annualize_returns_total_loss 12)). lia.
  - apply (proj2 (cc_annualize_returns_total_loss (-12))). lia.
Defined.

Lemma np_std_of_constant_witness :
  (np_std (repeat (1 / 100) 252) = 0 /\
   np_std (repeat (1 / 100) 252) * R_sqrt.sqrt 252 = 0)%R.
Proof.
  apply (np_std_of_constant (1 / 100)%R 252). lia.
Defined.

Lemma np_std_two_apart : np_std [0; 2]%R = 1%R.
Proof.
  unfold np_std, np_mean. cbn [map length Z.of_nat Pos.of_succ_nat Pos.succ].
  rewrite !np_sum_cons_R, !np_sum_nil_R. unfold_R. cbn [sqrt R_Numeric].
  replace ((0 - (0 + (2 + 0)) / 2) * (0 - (0 + (2 + 0)) / 2) +
           ((2 - (0 + (2 + 0)) / 2) * (2 - (0 + (2 + 0)) / 2) + 0))%R
    with (2 * 1)%R by field.
  replace (2 * 1 / 2)%R with 1%R by field. apply sqrt_1.
Qed.

Lemma sharpe_ratio_annualisation_witness :
  qstk_get_sharpe_ratio [0; 2]%R 0%R
  = (R_sqrt.sqrt 252 * (np_mean [0; 2] / np_std [0; 2]))%R.
Proof.
  apply (sharpe_ratio_annualisation [0; 2]%R).
  rewrite np_std_two_apart. lra.
Defined.

Lemma sharpe_ratio_scale_free_witness :
  qstk_get_sharpe_ratio (map (Rmult 100) [0; 2]%R) 0%R
  = qstk_get_sharpe_ratio [0; 2]%R 0%R.
Proof.
  apply (sharpe_ratio_scale_free 100 [0; 2]%R); [lra|discriminate|].
  rewrite np_std_two_apart. lra.
Defined.

(** ** Compounded net returns *)

Section ExactCompoundedNet.
Local Open Scope R_scope.

Lemma In_present {A : Type} (v : A) (l : list (option A)) :
  In (Some v) l -> In v (present l).
Proof.
  induction l as [|[x|] l IH]; cbn [present In]; [tauto| |].
  - intros [E|Hin]; [left; congruence|right; apply IH; exact Hin].
  - intros [E|Hin]; [discriminate|apply IH; exact Hin].
Qed.

Lemma fold_left_Rmult_zero (l : list R) (a : R) :
  In 0 l -> fold_left Rmult l a = 0.
Proof.
  revert a. induction l as [|x l IH]; intros a; [contradiction|].
  cbn [fold_left]. intros [->|Hin]; [|apply IH; exact Hin].
  rewrite Rmult_0_r. clear. induction l as [|y l IHl]; cbn [fold_left];
    [reflexivity|].
  rewrite Rmult_0_l. exact IHl.
Qed.

(** X28. With [cumulative] and the default type net the running product is
    taken over the net returns themselves, so that one flat step
    ([P[j] = P[j-1]], a net return of zero) makes every compounded value
    from place [j] on zero. *)
Theorem returns_compounded_net_flat_step (now : Z) (P : list R)
  (e : option Z) (j i : nat) :
  Forall (fun p => p <> 0) P ->
  (1 <= j <= i)%nat -> (i < length P)%nat ->
  nth j P 0 = nth (j - 1) P 0 ->
  exists out,
    returns now (series_of P) (mkReturnsKw None (Some true) None e (Some 1%Z))
    = Ok (Frame out) /\
    nth_error (s_values out) i = Some (Some 0).
Proof.
  intros Hnz Hj Hi Hflat.
  destruct (returns_compounded now (series_of P)
              (mkReturnsKw None (Some true) None e (Some 1%Z)))
    as [out [Hrun [_ [_ [Hval _]]]]]; [reflexivity|reflexivity|cbn; lia|].
  cbn [kwargs_get kw_period kw_type] in Hval.
  change (if String.eqb "net" "net" then 0%Z else 1%Z) with 0%Z in Hval.
  change (Z.to_nat 1) with 1%nat in Hval.
  exists out. split; [exact Hrun|].
  cbn [series_of s_values] in Hval. rewrite length_map in Hval.
  rewrite Hval by lia. f_equal. unfold running_product.
  set (rets := map (periodic_return (map norm P) 1 0) (seq 0 (length P))).
  assert (Hat : forall k, (1 <= k < length P)%nat ->
            nth_error rets k
            = Some (Some (nth k P 0 / nth (k - 1) P 0 - 1 + IZR 0))).
  { intros k Hk. unfold rets. rewrite nth_error_map, nth_error_seq.
    destruct (Nat.ltb_spec k (length P)); [|lia].
    cbn [option_map Nat.add]. f_equal. apply periodic_return_at. lia. }
  rewrite (nth_error_nth rets i None (Hat i ltac:(lia))).
  change (fold_left mul ?l one) with (fold_left Rmult l 1).
  rewrite fold_left_Rmult_zero; [reflexivity|].
  apply In_present. apply (nth_error_In _ j).
  rewrite nth_error_firstn. destruct (Nat.ltb_spec j (S i)); [|lia].
  rewrite Hat by lia. do 2 f_equal. rewrite Hflat.
  assert (nth (j - 1) P 0 <> 0).
  { rewrite Forall_forall in Hnz. apply Hnz. apply nth_In. lia. }
  field. assumption.
Qed.
End ExactCompoundedNet.

Lemma returns_compounded_net_flat_step_witness :
  exists out,
    returns 0 (series_of [100; 110; 110; 121]%R)
      (mkReturnsKw None (Some true) None None (Some 1%Z))
    = Ok (Frame out) /\
    nth_error (s_values out) 3 = Some (Some 0%R).
Proof.
  refine (returns_compounded_net_flat_step 0 [100; 110; 110; 121]%R None 2 3
            _ _ _ _).
  - repeat constructor; lra.
  - lia.
  - simpl. lia.
  - reflexivity.
Defined.
